(** * scan.mjs: rarity scan of a list of FIDs

    A shallow embedding of [src/scan.mjs] and the properties of its
    specification.

    Modelling choices.
    - A JavaScript number is an IEEE 754 binary64 value: Rocq's primitive
      [float], whose operations are the hardware ones.  [typeof], [??],
      [?.], [||], [>], [>=], [===] are written out on a datatype of JSON-like
      values.
    - A [TypeError] raised by a property read on [null]/[undefined] is an
      explicit [Throw] in a small error monad.
    - The host functions that the program calls but does not define, and that
      binary64 arithmetic does not determine ([Math.log], [parseFloat],
      [Number.prototype.toFixed] followed by [Number], string conversion in
      template literals, which may throw, [path.join], [path.basename], the
      writes of the JSON and PNG files, which may fail), are the fields of
      a [Runtime]; every theorem holds for every runtime.
    - The remote service is a list of HTTP outcomes per call, consumed by the
      retry loops; [Math.random] jitter and wall-clock sleeping are not
      modelled, the delay handed to [jitter] is recorded instead.
    - [Array.prototype.sort] is determined by ECMAScript only when the
      comparator is consistent, which [b.score - a.score] is exactly when no
      score is NaN; every property of the order is stated for such lists,
      where the ranking is proved to be the only stable descending
      arrangement, whatever algorithm sorts.
    - Strings are sequences of 8-bit code units; white space is that of
      ASCII, and every property that depends on trimming is stated for
      ASCII input ([ascii_only]). *)

From Stdlib Require Import ZArith Lia Bool List String Ascii.
From Stdlib Require Import Sorted Permutation.
From Stdlib Require Import Floats.
Import ListNotations.

Set Warnings "-register-all".

(* ================================================================== *)
(** * Part I: definitions *)
(* ================================================================== *)

(** ** Binary64 helpers *)

Module IEEE.

(** The shape of a rounded result: not a NaN, and of sign [s]. *)
Definition sign_is (s : bool) (x : spec_float) : Prop :=
  match x with
  | S754_nan => False
  | S754_zero s' | S754_infinity s' | S754_finite s' _ _ => s' = s
  end.

(** Not a NaN, not a zero, and of sign [s]. *)
Definition nonzero_sign_is (s : bool) (x : spec_float) : Prop :=
  match x with
  | S754_infinity s' | S754_finite s' _ _ => s' = s
  | _ => False
  end.

Definition SFis_nan (x : spec_float) : bool :=
  match x with S754_nan => true | _ => false end.

(** Strictly above zero. *)
Definition is_pos (x : spec_float) : bool := SFltb (S754_zero false) x.

(** At or above zero (either zero counts). *)
Definition is_nonneg (x : spec_float) : bool := SFleb (S754_zero false) x.

(** An integer of magnitude below 2^63 as a float (exact below 2^53). *)
Definition float_of_Z (z : Z) : float :=
  match z with
  | Z0 => zero
  | Zpos _ => of_uint63 (Uint63.of_Z z)
  | Zneg p => (- of_uint63 (Uint63.of_Z (Zpos p)))%float
  end.

(** [Math.floor]: a finite [x = +-m * 2^e] with [e < 0] is rounded down to
    an integer of magnitude at most [m < 2^53]; every other value (an
    integer already, a zero, an infinity, NaN) is returned as it is. *)
Definition Math_floor (x : float) : float :=
  match Prim2SF x with
  | S754_finite s m e =>
      if (0 <=? e)%Z then x
      else float_of_Z (Z.shiftr (cond_Zopp s (Zpos m)) (- e))
  | _ => x
  end.

(** [Math.max(a, b)]: NaN if either is NaN, and [+0] above [-0]. *)
Definition Math_max (a b : float) : float :=
  if is_nan a || is_nan b then nan
  else if (a <? b)%float then b
  else if (b <? a)%float then a
  else if get_sign a then b else a.

(** [Math.min(a, b)]: NaN if either is NaN, and [-0] below [+0]. *)
Definition Math_min (a b : float) : float :=
  if is_nan a || is_nan b then nan
  else if (a <? b)%float then a
  else if (b <? a)%float then b
  else if get_sign a then a else b.

Inductive IntegerOrInfinity : Type :=
| NegInfinity
| Integer (z : Z)
| PosInfinity.

(** ToIntegerOrInfinity: NaN and the zeros give 0, a finite value is
    truncated towards zero. *)
Definition ToIntegerOrInfinity (x : float) : IntegerOrInfinity :=
  match Prim2SF x with
  | S754_nan | S754_zero _ => Integer 0
  | S754_infinity s => if s then NegInfinity else PosInfinity
  | S754_finite s m e =>
      Integer (cond_Zopp s
                 (if (0 <=? e)%Z then Zpos m * 2 ^ e
                  else Z.shiftr (Zpos m) (- e)))%Z
  end.

(** [l.slice(0, end)] *)
Definition slice0 {A : Type} (l : list A) (end_ : float) : list A :=
  let len := Z.of_nat (List.length l) in
  let final :=
    match ToIntegerOrInfinity end_ with
    | NegInfinity => 0
    | Integer r => if r <? 0 then Z.max (len + r) 0 else Z.min r len
    | PosInfinity => len
    end%Z in
  firstn (Z.to_nat final) l.

End IEEE.

(** ** JavaScript values *)

Module Js.

Inductive JsVal : Type :=
| JUndefined
| JNull
| JBool (b : bool)
| JNum (x : float)
| JStr (s : string)
| JArr (elems : list JsVal)
| JObj (fields : list (string * JsVal)).

Inductive JsError : Type := TypeError.

(** A computation that returns or throws. *)
Inductive result (A : Type) : Type :=
| Ok (a : A)
| Throw (e : JsError).
Arguments Ok {A} a.
Arguments Throw {A} e.

Definition bind {A B} (r : result A) (k : A -> result B) : result B :=
  match r with
  | Ok a => k a
  | Throw e => Throw e
  end.

Fixpoint mapM {A B} (f : A -> result B) (l : list A) : result (list B) :=
  match l with
  | [] => Ok []
  | a :: l' =>
      bind (f a) (fun b => bind (mapM f l') (fun bs => Ok (b :: bs)))
  end.

(** [typeof v] *)
Definition typeof (v : JsVal) : string :=
  match v with
  | JUndefined => "undefined"
  | JNull => "object"
  | JBool _ => "boolean"
  | JNum _ => "number"
  | JStr _ => "string"
  | JArr _ => "object"
  | JObj _ => "object"
  end.

(** [v === null || v === undefined] *)
Definition nullish (v : JsVal) : bool :=
  match v with
  | JUndefined | JNull => true
  | _ => false
  end.

(** ToBoolean *)
Definition truthy (v : JsVal) : bool :=
  match v with
  | JUndefined | JNull => false
  | JBool b => b
  | JNum x => negb (PrimFloat.eqb x 0 || is_nan x)
  | JStr s => negb (String.eqb s "")
  | JArr _ | JObj _ => true
  end.

Definition Array_isArray (v : JsVal) : bool :=
  match v with
  | JArr _ => true
  | _ => false
  end.

(** The number a value of type number is. *)
Definition number_of (v : JsVal) : float :=
  match v with
  | JNum x => x
  | _ => nan
  end.

(** The string a value of type string is. *)
Definition string_of (v : JsVal) : string :=
  match v with
  | JStr s => s
  | _ => ""
  end.

(** The elements of an array value. *)
Definition elements (v : JsVal) : list JsVal :=
  match v with
  | JArr l => l
  | _ => []
  end.

(** Own property of an object; a missing key reads [undefined]. *)
Fixpoint lookup (k : string) (fields : list (string * JsVal)) : JsVal :=
  match fields with
  | [] => JUndefined
  | (k', v) :: rest => if String.eqb k k' then v else lookup k rest
  end.

(** [o.k] for the field names the program reads: none of them is an own
    or inherited property of a primitive or of an array, so those read
    [undefined]; [null] and [undefined] have no properties at all. *)
Definition get (o : JsVal) (k : string) : result JsVal :=
  match o with
  | JUndefined | JNull => Throw TypeError
  | JObj fields => Ok (lookup k fields)
  | _ => Ok JUndefined
  end.

(** [o?.k] *)
Definition get_opt (o : JsVal) (k : string) : JsVal :=
  match o with
  | JObj fields => lookup k fields
  | _ => JUndefined
  end.

(** [a ?? b]; [b] is only looked at when [a] is nullish. *)
Definition coalesce (a b : result JsVal) : result JsVal :=
  bind a (fun v => if nullish v then b else Ok v).

(** [a || b] *)
Definition or_else (a b : JsVal) : JsVal := if truthy a then a else b.

(** [s.endsWith(suffix)] *)
Definition endsWith (s suffix : string) : bool :=
  let n := String.length s in
  let k := String.length suffix in
  (k <=? n)%nat && String.eqb (substring (n - k) k s) suffix.

(** White space and line terminators, as [trim] strips them, among the
    code units below 128.  [String.prototype.trim] also strips U+00A0,
    U+FEFF and the other Unicode spaces, which an ASCII text does not
    hold: what depends on trimming is stated for [ascii_only] input. *)
Definition isWhiteSpace (c : ascii) : bool :=
  match nat_of_ascii c with
  | 9 | 10 | 11 | 12 | 13 | 32 => true
  | _ => false
  end.

(** An ASCII text: every code unit is below 128. *)
Definition ascii_only (s : string) : bool :=
  forallb (fun c => (nat_of_ascii c <? 128)%nat) (list_ascii_of_string s).

Fixpoint dropWhiteSpace (l : list ascii) : list ascii :=
  match l with
  | c :: l' => if isWhiteSpace c then dropWhiteSpace l' else l
  | [] => []
  end.

(** [s.trim()] *)
Definition trim (s : string) : string :=
  string_of_list_ascii
    (rev (dropWhiteSpace (rev (dropWhiteSpace (list_ascii_of_string s))))).

(** The code units [trim] keeps: white space dropped at both ends. *)
Definition trimmed_units (l : list ascii) : list ascii :=
  rev (dropWhiteSpace (rev (dropWhiteSpace l))).

(** A blank line: nothing but white space. *)
Definition blank (s : string) : bool :=
  forallb isWhiteSpace (list_ascii_of_string s).

Definition LF : ascii := "010"%char.
Definition CR : ascii := "013"%char.

(** [s.split(/\r?\n/)] on the code units of [s]; [cur] holds the current
    piece, last unit first. *)
Fixpoint split_lines_from (cur : list ascii) (s : list ascii)
  : list string :=
  match s with
  | [] => [string_of_list_ascii (rev cur)]
  | c :: rest =>
      if Ascii.eqb c LF
      then string_of_list_ascii (rev cur) :: split_lines_from [] rest
      else
        match rest with
        | c' :: rest' =>
            if Ascii.eqb c CR && Ascii.eqb c' LF
            then string_of_list_ascii (rev cur) :: split_lines_from [] rest'
            else split_lines_from (c :: cur) rest
        | [] => split_lines_from (c :: cur) rest
        end
  end.

Definition split_lines (s : string) : list string :=
  split_lines_from [] (list_ascii_of_string s).

End Js.

(** ** The host functions the program relies on *)

Class Runtime : Type := {
  (** [Math.log] *)
  Math_log : float -> float;
  (** [parseFloat] of a string *)
  parseFloat : string -> float;
  (** [x => Number(x.toFixed(6))] *)
  Number_toFixed6 : float -> float;
  (** the string a template literal renders a value as, or the
      [TypeError] the conversion throws (on an object whose own [toString]
      is not callable, say) *)
  ToString : Js.JsVal -> Js.result string;
  (** [path.join(a, b)] *)
  path_join : string -> string -> string;
  (** [path.basename] *)
  path_basename : string -> string;
  (** whether [fs.writeFileSync(path, JSON.stringify(data, null, 2))]
      succeeds, rather than throws; one run meets one file system, which
      answers the write of the same data at the same path the same way *)
  writeJson : string -> Js.JsVal -> bool;
  (** whether [Buffer.from(b64, 'base64')] and the write of the PNG at the
      given path both succeed *)
  writePng : Js.JsVal -> string -> bool
}.

(** ** The program *)

Module Scan.
Import IEEE Js.
Local Open Scope string_scope.

Notation "x <- c1 ;; c2" := (bind c1 (fun x => c2))
  (at level 61, c1 at next level, right associativity).
Infix "??" := coalesce (at level 55, left associativity).

Section Scoring.
Context {rt : Runtime}.

(** [{trait_type, value, percent, rarity}] *)
Record TraitRecord : Type := {
  trait_type : JsVal;
  value : JsVal;
  percent : JsVal;
  rarity : JsVal
}.

(** The callback of [raw.map] in [normalizeTraits]. *)
Definition normalizeTrait (t : JsVal) : result TraitRecord :=
  percent <- get t "percent" ?? get t "percentage" ?? get t "frequency"
               ?? get t "rarityPercent" ?? Ok JNull ;;
  rarity <- get t "rarity" ?? get t "score" ?? Ok JNull ;;
  trait_type <- get t "trait_type" ?? get t "traitType" ?? get t "type"
                  ?? Ok (JStr "trait") ;;
  value <- get t "value" ?? get t "name" ?? get t "val" ?? Ok (JStr "") ;;
  Ok {| trait_type := trait_type;
        value := value;
        percent :=
          if String.eqb (typeof percent) "string"
             && endsWith (string_of percent) "%"
          then JNum (parseFloat (string_of percent))
          else if String.eqb (typeof percent) "number" then percent
               else JNull;
        rarity := rarity |}.

Definition normalizeTraits (data : JsVal) : result (list TraitRecord) :=
  let raw :=
    if Array_isArray (get_opt data "attributes")
    then elements (get_opt data "attributes")
    else if Array_isArray (get_opt data "traits")
         then elements (get_opt data "traits")
         else [] in
  mapM normalizeTrait raw.

(** One turn of the [for (const t of traits)] loop of [rarityScore]. *)
Definition score_step (score : float) (t : TraitRecord) : float :=
  if String.eqb (typeof (percent t)) "number"
     && (0 <? number_of (percent t))%float
  then
    let p := (number_of (percent t) / 100)%float in
    (score + - Math_log p)%float
  else if String.eqb (typeof (rarity t)) "number"
       then (score + number_of (rarity t))%float
       else (score + 0.5)%float.

Definition rarityScore (data : JsVal) : result float :=
  if String.eqb (typeof (get_opt data "rarityScore")) "number"
  then Ok (number_of (get_opt data "rarityScore"))
  else
    traits <- normalizeTraits data ;;
    Ok (Number_toFixed6 (fold_left score_step traits 0%float)).

(** The callback of [traits.map] in [traitsSummary]; each template
    literal converts its values to strings, which may throw. *)
Definition summarizeTrait (t : TraitRecord) : result string :=
  pct <- (if nullish (percent t) then Ok ""
          else p <- ToString (percent t) ;; Ok (p ++ "%")) ;;
  ty <- ToString (trait_type t) ;;
  v <- ToString (value t) ;;
  Ok (ty ++ ":" ++ v ++ (if String.eqb pct "" then "" else "(" ++ pct ++ ")")).

Definition traitsSummary (data : JsVal) : result string :=
  traits <- normalizeTraits data ;;
  parts <- mapM summarizeTrait traits ;;
  Ok (String.concat " | " parts).

(** *** The scorer as the specification words it *)

(** What one trait contributes: [-ln(percent/100)] when a numeric percent
    above 0 is known, else the trait's rarity number when it is one, else
    the flat default weight. *)
Definition trait_weight (t : TraitRecord) : float :=
  match percent t with
  | JNum pc =>
      if (0 <? pc)%float then (- Math_log (pc / 100))%float
      else match rarity t with JNum r => r | _ => 0.5%float end
  | _ => match rarity t with JNum r => r | _ => 0.5%float end
  end.

(** A trait whose contribution is built from non-negative data: its
    positive percent has a logarithm of [percent/100] at most 0, or, with
    no positive percent, its rarity number is at least 0. *)
Definition nonneg_trait (t : TraitRecord) : Prop :=
  let nonneg_rarity :=
    match rarity t with
    | JNum r => (0 <=? r)%float = true
    | _ => True
    end in
  match percent t with
  | JNum pc =>
      if (0 <? pc)%float then (Math_log (pc / 100) <=? 0)%float = true
      else nonneg_rarity
  | _ => nonneg_rarity
  end.

(** The sum of the contributions, in trait order, rounded to 6 decimals. *)
Definition spec_score (traits : list TraitRecord) : float :=
  Number_toFixed6 (fold_left PrimFloat.add (map trait_weight traits) 0%float).

End Scoring.

(** *** Retry loops *)

(** What one [httpPost] gives: a response, or an exception (a network
    error, a timeout, a status that axios rejects). *)
Inductive HttpOutcome : Type :=
| HttpResponse (status : Z) (data : JsVal)
| HttpFailure.

(** The answer the retry loops wait for: [status === 200 && data]. *)
Definition succeeded (attempt : HttpOutcome) : bool :=
  match attempt with
  | HttpResponse status data => (status =? 200)%Z && truthy data
  | HttpFailure => false
  end.

(** [{ ok, data, jsonPath, pngPath }] as [generateMeta] returns it. *)
Record GenerationResult : Type := {
  gen_ok : bool;
  gen_data : JsVal;
  gen_jsonPath : string;
  gen_pngPath : option string
}.

(** [{ ok, data, path }] as [requestSignature] returns it. *)
Record SignatureReply : Type := {
  sign_ok : bool;
  sign_data : JsVal;
  sign_path : string
}.

Definition maxBack : float := 50%float.

(** Line 113: [Math.min(maxBack, Math.max(500, Math.floor(backoff * 1.5)))] *)
Definition next_backoff_generate (backoff : float) : float :=
  Math_min maxBack (Math_max 500 (Math_floor (backoff * 1.5))).

(** Line 136: [Math.min(maxBack, Math.max(800, Math.floor(backoff * 1.5)))] *)
Definition next_backoff_sign (backoff : float) : float :=
  Math_min maxBack (Math_max 800 (Math_floor (backoff * 1.5))).

(** The environment of one run. *)
Record Config : Type := {
  OUTDIR : string;
  ADDR : string;
  RARE_ONLY : bool;
  TOP_K : float;
  MIN_SCORE : float
}.

Section Fetching.
Context {rt : Runtime}.
Variable cfg : Config.

Definition maybeSavePng (data : JsVal) (fid : string) : option string :=
  let b64 := or_else (or_else (get_opt data "generatedImage")
                              (get_opt data "imageBase64")) JNull in
  if negb (truthy b64) then None
  else
    let out := path_join (OUTDIR cfg) ("warplet-" ++ fid ++ ".png") in
    if writePng b64 out then Some out else None.

(** The [for(;;)] loop of [generateMeta], run against the outcomes of the
    successive posts.  An attempt ends the loop when the post answers
    with status 200 and a truthy body and the write of the JSON file does
    not throw; a failed post, another answer and a failed write (the write
    is inside the [try]) all lead to the next turn.  The loop gives the
    result of the first attempt that ends it, [None] while there is none,
    and the delays handed to [jitter] after the other attempts. *)
Fixpoint generateMeta_loop (fid : string) (backoff : float)
    (attempts : list HttpOutcome)
  : option GenerationResult * list float :=
  match attempts with
  | [] => (None, [])
  | attempt :: later =>
      let retry :=
        let backoff := next_backoff_generate backoff in
        let (res, delays) := generateMeta_loop fid backoff later in
        (res, backoff :: delays) in
      match attempt with
      | HttpResponse status data =>
          if (status =? 200)%Z && truthy data
          then
            let jsonPath :=
              path_join (OUTDIR cfg) ("warplet-" ++ fid ++ ".json") in
            if writeJson jsonPath data
            then (Some {| gen_ok := true;
                          gen_data := data;
                          gen_jsonPath := jsonPath;
                          gen_pngPath := maybeSavePng data fid |}, [])
            else retry
          else retry
      | HttpFailure => retry
      end
  end.

Definition generateMeta (fid : string) (attempts : list HttpOutcome)
  : option GenerationResult * list float :=
  generateMeta_loop fid 10 attempts.

(** The [for(;;)] loop of [requestSignature]; the write of the signature
    file is inside the [try] as well. *)
Fixpoint requestSignature_loop (fid : string) (backoff : float)
    (attempts : list HttpOutcome)
  : option SignatureReply * list float :=
  match attempts with
  | [] => (None, [])
  | attempt :: later =>
      let retry :=
        let backoff := next_backoff_sign backoff in
        let (res, delays) := requestSignature_loop fid backoff later in
        (res, backoff :: delays) in
      match attempt with
      | HttpResponse status data =>
          if (status =? 200)%Z && truthy data
          then
            let out := path_join (OUTDIR cfg) ("sign-" ++ fid ++ ".json") in
            if writeJson out data
            then (Some {| sign_ok := true;
                          sign_data := data;
                          sign_path := out |}, [])
            else retry
          else retry
      | HttpFailure => retry
      end
  end.

Definition requestSignature (fid wallet : string)
    (attempts : list HttpOutcome)
  : option SignatureReply * list float :=
  requestSignature_loop fid 10 attempts.

(** The attempt [generateMeta] returns at: the answer it waits for, with
    the JSON file of the identifier written. *)
Definition generate_succeeded (fid : string) (attempt : HttpOutcome) : bool :=
  match attempt with
  | HttpResponse status data =>
      succeeded attempt
      && writeJson (path_join (OUTDIR cfg) ("warplet-" ++ fid ++ ".json")) data
  | HttpFailure => false
  end.

(** The attempt [requestSignature] returns at. *)
Definition sign_succeeded (fid : string) (attempt : HttpOutcome) : bool :=
  match attempt with
  | HttpResponse status data =>
      succeeded attempt
      && writeJson (path_join (OUTDIR cfg) ("sign-" ++ fid ++ ".json")) data
  | HttpFailure => false
  end.

End Fetching.

(** *** Main *)

(** [INFILE] read, split, trimmed, and the empty pieces dropped. *)
Definition fids (infile : string) : list string :=
  filter (fun s => negb (String.eqb s "")) (map trim (split_lines infile)).

(** An entry of [metas]. *)
Record Meta : Type := {
  fid : string;
  score : float;
  summary : string;
  jsonPath : string;
  pngPath : string;
  data : JsVal
}.

(** An entry of [sigResults]. *)
Record SigResult : Type := {
  s_fid : string;
  s_ok : bool;
  s_path : string;
  s_error : string
}.

(** A row of [index.csv]. *)
Record Row : Type := {
  row_fid : string;
  row_rarityScore : float;
  row_traits : string;
  row_json : string;
  row_png : string;
  signature : string;
  sig_error : string
}.

(** [Array.prototype.sort] with a comparator: a stable sort.  ECMAScript
    fixes its result when the comparator is consistent on the array, as
    [b.score - a.score] is when no score is NaN: the result is then the
    one stable arrangement in descending order, which this definition
    computes ([Scan_facts.stable_descending_unique]).  Where a score is
    NaN the comparator is not consistent and the order is left to the
    engine; this definition then gives a rearrangement that need not be
    the engine's, and nothing about the order is stated for such lists.
    [x], which stood before the entries of [sorted], moves behind [y]
    exactly when [compare x y > 0]. *)
Fixpoint sort_insert {A : Type} (compare : A -> A -> float) (x : A)
    (sorted : list A) : list A :=
  match sorted with
  | [] => [x]
  | y :: rest =>
      if (0 <? compare x y)%float
      then y :: sort_insert compare x rest
      else x :: sorted
  end.

Definition Array_sort {A : Type} (compare : A -> A -> float) (l : list A)
  : list A :=
  fold_right (sort_insert compare) [] l.

(** Line 158: [metas.sort((a,b)=> b.score - a.score)] *)
Definition sort_metas (metas : list Meta) : list Meta :=
  Array_sort (fun a b => (score b - score a)%float) metas.

(** Descending order: the second number is not greater than the first. *)
Definition desc (x y : float) : Prop := (x <? y)%float = false.

Definition score_desc (a b : Meta) : Prop := desc (score a) (score b).


(** Descending order between numbers: the first is greater than or equal
    to the second (which no NaN is to anything). *)
Definition geq (x y : float) : Prop := (y <=? x)%float = true.

Definition score_geq (a b : Meta) : Prop := geq (score a) (score b).


(** No entry has a NaN score. *)
Definition no_NaN_score (metas : list Meta) : Prop :=
  Forall (fun m => is_nan (score m) = false) metas.


(** [new Map(entries)] and [Map.prototype.get]: a later entry replaces an
    earlier one of the same key. *)
Fixpoint Map_get {V : Type} (k : string) (entries : list (string * V))
  : option V :=
  match entries with
  | [] => None
  | (k', v) :: rest =>
      match Map_get k rest with
      | Some v' => Some v'
      | None => if String.eqb k k' then Some v else None
      end
  end.

(** The remote service as one run meets it: the outcomes of the successive
    posts of the [i]-th generate call and of the [i]-th sign call. *)
Record World : Type := {
  generate_http : nat -> list HttpOutcome;
  sign_http : nat -> list HttpOutcome
}.

(** [Promise.all(l.map(f))], with the position of each element: the
    results in the order of [l], or nothing when a call does not
    complete. *)
Fixpoint all_from {A B : Type} (f : nat -> A -> option B) (i : nat)
    (l : list A) : option (list B) :=
  match l with
  | [] => Some []
  | a :: l' =>
      match f i a, all_from f (S i) l' with
      | Some b, Some bs => Some (b :: bs)
      | _, _ => None
      end
  end.

Section Main.
Context {rt : Runtime}.
Variable cfg : Config.
Variable world : World.

(** Lines 146-156: one entry of [metas]; nothing when the fetch never
    returns, or the scorer or the summary throws. *)
Definition scan_one (i : nat) (fid : string) : option Meta :=
  match fst (generateMeta cfg fid (generate_http world i)) with
  | None => None
  | Some res =>
      match rarityScore (gen_data res), traitsSummary (gen_data res) with
      | Ok score, Ok summary =>
          Some {| fid := fid;
                  score := score;
                  summary := summary;
                  jsonPath := gen_jsonPath res;
                  pngPath := match gen_pngPath res with
                             | Some p => p
                             | None => ""
                             end;
                  data := gen_data res |}
      | _, _ => None
      end
  end.

(** Lines 184-195 *)
Definition targets (metas : list Meta) : list Meta :=
  if String.eqb (ADDR cfg) "" then []
  else if RARE_ONLY cfg
       then slice0 (filter (fun m => (MIN_SCORE cfg <=? score m)%float) metas)
                   (TOP_K cfg)
       else metas.

(** Lines 197-200 *)
Definition sign_one (i : nat) (m : Meta) : option SigResult :=
  match fst (requestSignature cfg (fid m) (ADDR cfg) (sign_http world i)) with
  | None => None
  | Some r =>
      Some {| s_fid := fid m;
              s_ok := sign_ok r;
              s_path := sign_path r;
              s_error := if sign_ok r then "" else "unknown" |}
  end.

(** Lines 167-175: the rows of the first write of the index. *)
Definition initial_rows (metas : list Meta) : list Row :=
  map (fun m =>
         {| row_fid := fid m;
            row_rarityScore := score m;
            row_traits := summary m;
            row_json := path_basename (jsonPath m);
            row_png := if String.eqb (pngPath m) "" then ""
                       else path_basename (pngPath m);
            signature := "";
            sig_error := "" |}) metas.

(** Lines 203-212 *)
Definition rows (metas : list Meta) (sigResults : list SigResult)
  : list Row :=
  let sigMap := map (fun s => (s_fid s, s)) sigResults in
  map (fun m =>
         {| row_fid := fid m;
            row_rarityScore := score m;
            row_traits := summary m;
            row_json := path_basename (jsonPath m);
            row_png := if String.eqb (pngPath m) "" then ""
                       else path_basename (pngPath m);
            signature :=
              match Map_get (fid m) sigMap with
              | Some s => if s_ok s then path_basename (s_path s) else ""
              | None => ""
              end;
            sig_error :=
              let fallback :=
                if String.eqb (ADDR cfg) "" then "NO_WALLET" else "" in
              match Map_get (fid m) sigMap with
              | Some s => if String.eqb (s_error s) "" then fallback
                          else s_error s
              | None => fallback
              end |}) metas.

(** The rows of the first write of [index.csv] (lines 161-178), made once
    every identifier is scored and ranked, or nothing when the run does
    not reach it. *)
Definition first_index (infile : string) : option (list Row) :=
  match all_from scan_one 0 (fids infile) with
  | None => None
  | Some metas => Some (initial_rows (sort_metas metas))
  end.

(** The whole run on the content of [INFILE]: the rows of the final
    [index.csv], or nothing when the run does not reach that write. *)
Definition main (infile : string) : option (list Row) :=
  match all_from scan_one 0 (fids infile) with
  | None => None
  | Some metas =>
      let metas := sort_metas metas in
      match all_from sign_one 0 (targets metas) with
      | None => None
      | Some sigResults => Some (rows metas sigResults)
      end
  end.

End Main.

End Scan.

(** ** A runtime and inputs for running the model *)

Module Sample.
Import IEEE Js Scan.
Local Open Scope string_scope.

(** [path.basename] for POSIX separators; [cur] is the piece read since
    the last separator. *)
Fixpoint basename_from (cur : string) (p : string) : string :=
  match p with
  | EmptyString => cur
  | String c p' =>
      if Ascii.eqb c "/"%char then basename_from "" p'
      else basename_from (cur ++ String c "") p'
  end.

(** The host functions at the arguments the examples below use, with the
    values Node.js gives there ([Math.log(0.5)], [parseFloat] of a
    percentage), and no rounding.  An object with an own [toString]
    property (never callable in JSON data) does not convert to a string,
    and a file is written when it lies directly in the directory [out]
    (an identifier with a [/] names a file in a directory that does not
    exist). *)
Definition runtime : Runtime := {|
  Math_log := fun x =>
    if (x =? 1)%float then 0%float
    else if (x =? 0.5)%float then (-0x1.62e42fefa39efp-1)%float
    else if (x =? 2)%float then 0x1.62e42fefa39efp-1%float
    else nan;
  parseFloat := fun s =>
    if String.eqb s "50%" then 50%float
    else if String.eqb s "25%" then 25%float
    else nan;
  Number_toFixed6 := fun x => x;
  ToString := fun v =>
    match v with
    | JStr s => Ok s
    | JNum x => Ok (if (x =? 50)%float then "50"
                    else if (x =? 25)%float then "25" else "?")
    | JObj fields =>
        if existsb (fun kv => String.eqb (fst kv) "toString") fields
        then Throw TypeError else Ok "[object Object]"
    | _ => Ok "?"
    end;
  path_join := fun a b => a ++ "/" ++ b;
  path_basename := basename_from "";
  writeJson := fun p _ => String.eqb p ("out/" ++ basename_from "" p);
  writePng := fun b64 _ => match b64 with JStr _ => true | _ => false end
|}.

Definition config (addr : string) (rare_only : bool) : Config := {|
  OUTDIR := "out";
  ADDR := addr;
  RARE_ONLY := rare_only;
  TOP_K := 2%float;
  MIN_SCORE := 2%float
|}.

(** A payload scored by the remote service. *)
Definition scored (x : float) : JsVal := JObj [("rarityScore", JNum x)].

(** [{ attributes: [{trait_type: "Hat", value: "Cap", percent: 50},
                    {trait_type: "Eyes", rarity: 2}, {}] }] *)
Definition payload_attributes : JsVal :=
  JObj [("attributes",
         JArr [JObj [("trait_type", JStr "Hat"); ("value", JStr "Cap");
                     ("percent", JNum 50)];
               JObj [("trait_type", JStr "Eyes"); ("rarity", JNum 2)];
               JObj []])].

(** The same traits under [traits]. *)
Definition payload_traits : JsVal :=
  JObj [("name", JStr "warplet");
        ("traits", get_opt payload_attributes "attributes")].

(** Both containers present, holding different arrays. *)
Definition payload_both : JsVal :=
  JObj [("attributes", JArr [JObj [("percent", JNum 50)]]);
        ("traits", JArr [JObj [("rarity", JNum 2)]])].

Definition payload_both' : JsVal :=
  JObj [("traits", JArr [JNull; JStr "x"]);
        ("attributes", JArr [JObj [("percent", JNum 50)]])].

(** [{ attributes: [null] }] *)
Definition payload_null_entry : JsVal := JObj [("attributes", JArr [JNull])].


(** A payload with no trait array: [attributes] is not an array. *)
Definition payload_no_traits : JsVal :=
  JObj [("name", JStr "x"); ("attributes", JStr "none")].

(** A payload scored by the remote service whose trait array has a [null]
    entry. *)
Definition payload_scored_null_entry : JsVal :=
  JObj [("rarityScore", JNum 7); ("attributes", JArr [JNull])].

(** A payload with an empty [generatedImage] and an [imageBase64]. *)
Definition payload_image : JsVal :=
  JObj [("generatedImage", JStr ""); ("imageBase64", JStr "aGk=")].

(** [{ attributes: [{rarity: -3}] }] *)
Definition payload_negative_rarity : JsVal :=
  JObj [("attributes", JArr [JObj [("rarity", JNum (-3))]])].

Definition meta (fid : string) (score : float) : Meta := {|
  fid := fid; score := score; summary := "";
  jsonPath := "out/warplet-" ++ fid ++ ".json"; pngPath := "";
  data := scored score
|}.

(** Identifiers A, B, C, D scored 3, 5, 5, 1. *)
Definition metas_3551 : list Meta :=
  [meta "A" 3; meta "B" 5; meta "C" 5; meta "D" 1].

(** Identifiers A, B, C, D scored 5, 3, NaN, 10. *)
Definition metas_53N10 : list Meta :=
  [meta "A" 5; meta "B" 3; meta "C" nan; meta "D" 10].


(** [{ attributes: [{value: {toString: 1}}] }]: a trait whose value does
    not convert to a string. *)
Definition payload_unprintable : JsVal :=
  JObj [("attributes",
         JArr [JObj [("value", JObj [("toString", JNum 1)])]])].

(** The configuration of a rare-only run with the given [TOP_K]. *)
Definition config_top (top_k : float) : Config := {|
  OUTDIR := "out";
  ADDR := "0xW";
  RARE_ONLY := true;
  TOP_K := top_k;
  MIN_SCORE := 2%float
|}.

(** Identifiers A, B, C, D scored 5, 3, 1, 4. *)
Definition metas_5314 : list Meta :=
  [meta "A" 5; meta "B" 3; meta "C" 1; meta "D" 4].

(** Every call of the remote service succeeds at once: generate call [i]
    answers with [payloads i], sign calls with a signature object. *)
Definition world (payloads : nat -> JsVal) : World := {|
  generate_http := fun i => [HttpResponse 200 (payloads i)];
  sign_http := fun _ => [HttpResponse 200 (JObj [("signature", JStr "0xabc")])]
|}.

(** A remote service whose generate calls answer like [world payloads]
    and whose sign calls never succeed. *)
Definition world_no_sign (payloads : nat -> JsVal) : World := {|
  generate_http := fun i => [HttpResponse 200 (payloads i)];
  sign_http := fun _ => [HttpFailure; HttpFailure]
|}.


(** Scores 3, 5, 5, 1 for the four lines of the input below. *)
Definition payloads_3551 (i : nat) : JsVal :=
  scored (nth i [3; 5; 5; 1]%float 0%float).


Definition infile_ABCD : string :=
  "A" ++ String LF "" ++ "B" ++ String CR (String LF "") ++ "  "
      ++ String LF "" ++ " C " ++ String LF "" ++ "D" ++ String LF "".

End Sample.

(* ================================================================== *)
(** * Part II: proofs *)
(* ================================================================== *)

(** ** Binary64 facts

    Rounding keeps the sign of an exact result and, above the smallest
    exponent, does not round a non-zero result to zero; the comparison
    of two floats is the sign of their rounded difference. *)

Module IEEE_facts.
Import IEEE.
Local Open Scope Z_scope.


Lemma shr_1_m mrs : shr_m (shr_1 mrs) = Z.quot2 (shr_m mrs).
Proof. destruct mrs as [[|[p|p|]|[p|p|]] r s]; reflexivity. Qed.

Lemma quot2_nonneg m : 0 <= m -> Z.quot2 m = m / 2.
Proof.
  intros H. rewrite <- Z.div2_div.
  destruct m as [|[p|p|]|p]; try reflexivity; lia.
Qed.

Lemma iter_shr_m p : forall mrs, 0 <= shr_m mrs ->
  shr_m (iter_pos shr_1 p mrs) = shr_m mrs / 2 ^ Zpos p.
Proof.
  induction p as [p IH|p IH|]; intros mrs H; cbn [iter_pos].
  - assert (H1 : 0 <= shr_m (shr_1 mrs)).
    { rewrite shr_1_m, quot2_nonneg by lia. apply Z.div_pos; lia. }
    assert (H2 : 0 <= shr_m (iter_pos shr_1 p (shr_1 mrs))).
    { rewrite IH by lia. apply Z.div_pos; lia. }
    rewrite IH, IH, shr_1_m, quot2_nonneg by lia.
    rewrite !Z.div_div by lia. f_equal.
    rewrite Pos2Z.inj_xI. rewrite <- !Z.pow_add_r by lia. 
    replace (2 * Z.pos p + 1) with (1 + Z.pos p + Z.pos p) by lia.
    rewrite !Z.pow_add_r by lia. lia.
  - assert (H2 : 0 <= shr_m (iter_pos shr_1 p mrs)).
    { rewrite IH by lia. apply Z.div_pos; lia. }
    rewrite IH, IH by lia.
    rewrite !Z.div_div by lia. f_equal.
    rewrite Pos2Z.inj_xO. rewrite <- !Z.pow_add_r by lia. f_equal; lia.
  - rewrite shr_1_m, quot2_nonneg by lia. reflexivity.
Qed.

Lemma digits2_pos_bounds m :
  2 ^ (Zpos (digits2_pos m) - 1) <= Zpos m < 2 ^ Zpos (digits2_pos m).
Proof.
  induction m as [m IH|m IH|]; cbn [digits2_pos].
  - rewrite Pos2Z.inj_succ.
    replace (Z.succ (Z.pos (digits2_pos m)) - 1)
      with (Z.succ (Z.pos (digits2_pos m) - 1)) by lia.
    rewrite !Z.pow_succ_r by lia. lia.
  - rewrite Pos2Z.inj_succ.
    replace (Z.succ (Z.pos (digits2_pos m)) - 1)
      with (Z.succ (Z.pos (digits2_pos m) - 1)) by lia.
    rewrite !Z.pow_succ_r by lia. lia.
  - cbn. lia.
Qed.



Lemma shr_record_of_loc_m m l : shr_m (shr_record_of_loc m l) = m.
Proof. destruct l as [|[| |]]; reflexivity. Qed.

Lemma shr_fexp_nonneg m e l :
  0 <= m -> 0 <= shr_m (fst (shr_fexp prec emax m e l)).
Proof.
  intros Hm. unfold shr_fexp, shr.
  destruct (fexp prec emax (Zdigits2 m + e) - e) as [|p|p]; cbn [fst];
    rewrite ?iter_shr_m; rewrite ?shr_record_of_loc_m; try lia.
  apply Z.div_pos; lia.
Qed.

Lemma shr_fexp_pos m e l :
  0 < m -> emin <= e ->
  0 < shr_m (fst (shr_fexp prec emax m e l)) /\
  emin <= snd (shr_fexp prec emax m e l).
Proof.
  intros Hm He. unfold shr_fexp, shr.
  destruct (fexp prec emax (Zdigits2 m + e) - e) as [|p|p] eqn:En;
    cbn [fst snd];
    rewrite ?iter_shr_m; rewrite ?shr_record_of_loc_m; try lia.
  split; [|lia].
  destruct m as [|q|q]; try lia. cbn [Zdigits2] in En.
  pose proof (digits2_pos_bounds q) as [Hlo _].
  apply Z.div_str_pos. split; [lia|].
  apply Z.le_trans with (2 ^ (Z.pos (digits2_pos q) - 1)); [|exact Hlo].
  apply Z.pow_le_mono_r; [lia|].
  unfold fexp, SpecFloat.emin, prec, emax in *. lia.
Qed.

Lemma round_nearest_even_ge mx lx : mx <= round_nearest_even mx lx.
Proof.
  destruct lx as [|[| |]]; cbn; try lia. destruct (Z.even mx); lia.
Qed.

Lemma binary_round_aux_sign s m e l :
  0 <= m -> sign_is s (binary_round_aux prec emax s m e l).
Proof.
  intros Hm. unfold binary_round_aux.
  pose proof (shr_fexp_nonneg m e l Hm) as H1.
  destruct (shr_fexp prec emax m e l) as [mrs1 e1]. cbn [fst] in H1.
  set (m1 := round_nearest_even (shr_m mrs1) (loc_of_shr_record mrs1)).
  pose proof (round_nearest_even_ge (shr_m mrs1) (loc_of_shr_record mrs1))
    as H2.
  pose proof (shr_fexp_nonneg m1 e1 loc_Exact ltac:(unfold m1; lia)) as H3.
  destruct (shr_fexp prec emax _ e1 loc_Exact) as [mrs2 e2]. cbn [fst] in H3.
  destruct (shr_m mrs2) as [|q|q]; try lia; [reflexivity|].
  destruct (e2 <=? emax - prec); reflexivity.
Qed.

Lemma binary_round_aux_pos s m e l :
  0 < m -> emin <= e -> nonzero_sign_is s (binary_round_aux prec emax s m e l).
Proof.
  intros Hm He. unfold binary_round_aux.
  pose proof (shr_fexp_pos m e l Hm He) as [H1 H1'].
  destruct (shr_fexp prec emax m e l) as [mrs1 e1]. cbn [fst snd] in H1, H1'.
  set (m1 := round_nearest_even (shr_m mrs1) (loc_of_shr_record mrs1)).
  pose proof (round_nearest_even_ge (shr_m mrs1) (loc_of_shr_record mrs1))
    as H2.
  pose proof (shr_fexp_pos m1 e1 loc_Exact ltac:(unfold m1; lia) H1')
    as [H3 _].
  destruct (shr_fexp prec emax _ e1 loc_Exact) as [mrs2 e2]. cbn [fst] in H3.
  destruct (shr_m mrs2) as [|q|q]; try lia.
  destruct (e2 <=? emax - prec); reflexivity.
Qed.

Lemma shl_align_snd mx ex e' : snd (shl_align mx ex e') = Z.min ex e'.
Proof. unfold shl_align. destruct (e' - ex) eqn:E; cbn [snd]; lia. Qed.

Lemma binary_round_sign s m e : sign_is s (binary_round prec emax s m e).
Proof.
  unfold binary_round. destruct (shl_align m e _) as [mz ez].
  apply binary_round_aux_sign. lia.
Qed.

Lemma binary_round_pos s m e :
  emin <= e -> nonzero_sign_is s (binary_round prec emax s m e).
Proof.
  intros He. unfold binary_round.
  pose proof (shl_align_snd m e (fexp prec emax (Z.pos (digits2_pos m) + e)))
    as Hs.
  destruct (shl_align m e _) as [mz ez]. cbn [snd] in Hs.
  apply binary_round_aux_pos; [lia|].
  unfold fexp, SpecFloat.emin in *. lia.
Qed.

Lemma bounded_facts m e :
  bounded prec emax m e = true ->
  emin <= e /\ Zpos m < 2 ^ 53 /\ (emin < e -> 2 ^ 52 <= Zpos m).
Proof.
  unfold bounded, canonical_mantissa. intros H.
  apply andb_prop in H. destruct H as [H _]. apply Z.eqb_eq in H.
  pose proof (digits2_pos_bounds m) as [Hlo Hhi].
  unfold fexp, SpecFloat.emin, prec, emax in *.
  assert (Hd : Z.pos (digits2_pos m) <= 53) by lia.
  split; [lia|]. split.
  - apply Z.lt_le_trans with (2 ^ Z.pos (digits2_pos m)); [exact Hhi|].
    apply Z.pow_le_mono_r; lia.
  - intros He. assert (Z.pos (digits2_pos m) = 53) as Hd' by lia.
    rewrite Hd' in Hlo. exact Hlo.
Qed.

Lemma iter_xO m d : Zpos (Pos.iter xO m d) = Zpos m * 2 ^ Zpos d.
Proof.
  induction d as [|d IH] using Pos.peano_ind.
  - cbn. lia.
  - rewrite Pos.iter_succ, Pos2Z.inj_succ, Z.pow_succ_r by lia.
    change (Z.pos (Pos.iter xO m d)~0) with (2 * Z.pos (Pos.iter xO m d)).
    rewrite IH. lia.
Qed.

Lemma shl_align_fst m e ez :
  ez <= e -> Zpos (fst (shl_align m e ez)) = Zpos m * 2 ^ (e - ez).
Proof.
  intros H. unfold shl_align.
  destruct (ez - e) as [|d|d] eqn:E; cbn [fst]; try lia.
  - replace (e - ez) with 0 by lia. lia.
  - rewrite iter_xO. f_equal. f_equal. lia.
Qed.

Lemma is_pos_nonzero x : nonzero_sign_is false x -> is_pos x = true.
Proof.
  destruct x as [s|s| |s m e]; cbn; intros H; try contradiction; subst;
    reflexivity.
Qed.

Lemma is_pos_neg x : sign_is true x -> is_pos x = false.
Proof.
  destruct x as [s|s| |s m e]; cbn; intros H; try contradiction; subst;
    reflexivity.
Qed.

Lemma binary_normalize_pos z e :
  0 < z -> emin <= e -> is_pos (binary_normalize prec emax z e false) = true.
Proof.
  intros Hz He. destruct z as [|p|p]; try lia. cbn [binary_normalize].
  apply is_pos_nonzero, binary_round_pos, He.
Qed.

Lemma binary_normalize_nonpos z e :
  z <= 0 -> is_pos (binary_normalize prec emax z e false) = false.
Proof.
  intros Hz. destruct z as [|p|p]; try lia; cbn [binary_normalize].
  - reflexivity.
  - apply is_pos_neg, binary_round_sign.
Qed.

Lemma SFsub_pos_iff a b :
  valid_binary a = true -> valid_binary b = true ->
  is_pos (SFsub prec emax b a) = SFltb a b.
Proof.
  intros Va Vb.
  destruct a as [sa|sa| |sa ma ea], b as [sb|sb| |sb mb eb];
    try (destruct sa, sb; reflexivity); try (destruct sa; reflexivity);
    try (destruct sb; reflexivity); try reflexivity.
  cbn [valid_binary] in Va, Vb.
  apply bounded_facts in Va, Vb.
  destruct Va as (Ha1 & Ha2 & Ha3), Vb as (Hb1 & Hb2 & Hb3).
  cbn [SFsub].
  set (ez := Z.min eb ea).
  assert (Hez : emin <= ez) by (unfold ez; lia).
  pose proof (shl_align_fst mb eb ez ltac:(unfold ez; lia)) as Eb.
  pose proof (shl_align_fst ma ea ez ltac:(unfold ez; lia)) as Ea.
  set (vb := Z.pos (fst (shl_align mb eb ez))) in *.
  set (va := Z.pos (fst (shl_align ma ea ez))) in *.
  assert (Hvb : 0 < vb) by (unfold vb; lia).
  assert (Hva : 0 < va) by (unfold va; lia).
  assert (Hcmp : (ea < eb -> va < vb) /\ (eb < ea -> vb < va) /\
                 (ea = eb -> va = Zpos ma /\ vb = Zpos mb)).
  { split; [|split]; intros H.
    - rewrite Ea, Eb. replace (ea - ez) with 0 by (unfold ez; lia).
      replace (eb - ez) with (Z.succ (eb - ea - 1)) by (unfold ez; lia).
      rewrite Z.pow_succ_r by lia.
      assert (Hp : 1 <= 2 ^ (eb - ea - 1))
        by (apply (Z.pow_le_mono_r 2 0); lia).
      specialize (Hb3 ltac:(lia)). change (2 ^ 0) with 1.
      change (2 ^ 53) with (2 * 2 ^ 52) in Ha2. nia.
    - rewrite Ea, Eb. replace (eb - ez) with 0 by (unfold ez; lia).
      replace (ea - ez) with (Z.succ (ea - eb - 1)) by (unfold ez; lia).
      rewrite Z.pow_succ_r by lia.
      assert (Hp : 1 <= 2 ^ (ea - eb - 1))
        by (apply (Z.pow_le_mono_r 2 0); lia).
      specialize (Ha3 ltac:(lia)). change (2 ^ 0) with 1.
      change (2 ^ 53) with (2 * 2 ^ 52) in Hb2. nia.
    - split.
      + rewrite Ea. replace (ea - ez) with 0 by (unfold ez; lia). cbn; lia.
      + rewrite Eb. replace (eb - ez) with 0 by (unfold ez; lia). cbn; lia. }
  destruct Hcmp as (Hlt & Hgt & Heq).
  unfold SFltb, SFcompare.
  destruct sa, sb; cbn [cond_Zopp].
  - (* both negative *)
    destruct (Z.compare_spec ea eb) as [E|E|E].
    + destruct (Heq E) as [-> ->].
      rewrite Pos.compare_cont_spec. cbn [Pos.switch_Eq].
      destruct (Pos.compare_spec ma mb) as [E'|E'|E']; cbn [CompOpp].
      * apply binary_normalize_nonpos. subst; lia.
      * apply binary_normalize_nonpos. lia.
      * apply binary_normalize_pos; [lia|exact Hez].
    + apply binary_normalize_nonpos. specialize (Hlt E). lia.
    + apply binary_normalize_pos; [|exact Hez]. specialize (Hgt E). lia.
  - apply binary_normalize_pos; [lia|exact Hez].
  - apply binary_normalize_nonpos. lia.
  - destruct (Z.compare_spec ea eb) as [E|E|E].
    + destruct (Heq E) as [-> ->].
      rewrite Pos.compare_cont_spec. cbn [Pos.switch_Eq].
      destruct (Pos.compare_spec ma mb) as [E'|E'|E'].
      * apply binary_normalize_nonpos. subst; lia.
      * apply binary_normalize_pos; [lia|exact Hez].
      * apply binary_normalize_nonpos. lia.
    + apply binary_normalize_pos; [|exact Hez]. specialize (Hlt E). lia.
    + apply binary_normalize_nonpos. specialize (Hgt E). lia.
Qed.

Ltac sf_cases :=
  unfold SFltb, SFeqb, SFleb, SFcompare;
  repeat match goal with
         | s : bool |- _ => destruct s
         end;
  repeat match goal with
         | |- context [Z.compare ?a ?b] => destruct (Z.compare_spec a b)
         | |- context [Pos.compare_cont Eq ?a ?b] =>
             rewrite (Pos.compare_cont_spec a b Eq); cbn [Pos.switch_Eq];
             destruct (Pos.compare_spec a b)
         end;
  cbn [CompOpp]; intros; subst;
  try discriminate; try reflexivity; try lia; auto.

Lemma SFltb_trans a b c :
  SFltb a b = true -> SFltb b c = true -> SFltb a c = true.
Proof.
  destruct a as [sa|sa| |sa ma ea], b as [sb|sb| |sb mb eb],
           c as [sc|sc| |sc mc ec]; sf_cases.
Qed.

Lemma SFnlt_trans a b c :
  SFis_nan b = false ->
  SFltb a b = false -> SFltb b c = false -> SFltb a c = false.
Proof.
  destruct a as [sa|sa| |sa ma ea], b as [sb|sb| |sb mb eb],
           c as [sc|sc| |sc mc ec]; cbn [SFis_nan]; sf_cases.
Qed.

Lemma SFltb_asym a b : SFltb a b = true -> SFltb b a = false.
Proof.
  destruct a as [sa|sa| |sa ma ea], b as [sb|sb| |sb mb eb]; sf_cases.
Qed.

Lemma SFeqb_not_lt a b s :
  SFeqb a s = true -> SFeqb b s = true -> SFltb a b = false.
Proof.
  destruct a as [sa|sa| |sa ma ea], b as [sb|sb| |sb mb eb],
           s as [ss|ss| |ss ms es]; sf_cases.
Qed.

Lemma SFleb_not_ltb a b : SFleb b a = true -> SFltb a b = false.
Proof.
  destruct a as [sa|sa| |sa ma ea], b as [sb|sb| |sb mb eb]; sf_cases.
Qed.

Lemma SFnltb_leb a b :
  SFis_nan a = false -> SFis_nan b = false ->
  SFltb a b = false -> SFleb b a = true.
Proof.
  destruct a as [sa|sa| |sa ma ea], b as [sb|sb| |sb mb eb];
    cbn [SFis_nan]; sf_cases.
Qed.

Lemma SFleb_antisym a b :
  SFleb a b = true -> SFleb b a = true -> SFeqb a b = true.
Proof.
  destruct a as [sa|sa| |sa ma ea], b as [sb|sb| |sb mb eb]; sf_cases.
Qed.

Lemma SFleb_not_nan a b :
  SFleb a b = true -> SFis_nan a = false /\ SFis_nan b = false.
Proof.
  destruct a as [sa|sa| |sa ma ea], b as [sb|sb| |sb mb eb];
    cbn [SFis_nan]; try (split; reflexivity); discriminate.
Qed.

Lemma SFeqb_refl x : SFeqb x x = negb (SFis_nan x).
Proof.
  destruct x as [s|s| |s m e]; try destruct s; try reflexivity;
    unfold SFeqb, SFcompare; rewrite Z.compare_refl, Pos.compare_cont_refl;
    reflexivity.
Qed.

Lemma is_nonneg_sign x : sign_is false x -> is_nonneg x = true.
Proof.
  destruct x as [s|s| |s m e]; cbn; intros H; try contradiction; subst;
    reflexivity.
Qed.

Lemma binary_normalize_nonneg z e :
  0 <= z -> is_nonneg (binary_normalize prec emax z e false) = true.
Proof.
  intros Hz. destruct z as [|p|p]; try lia; cbn [binary_normalize].
  - reflexivity.
  - apply is_nonneg_sign, binary_round_sign.
Qed.

Lemma SFadd_nonneg a b :
  is_nonneg a = true -> is_nonneg b = true ->
  is_nonneg (SFadd prec emax a b) = true.
Proof.
  destruct a as [sa|sa| |sa ma ea], b as [sb|sb| |sb mb eb];
    try (destruct sa, sb; (reflexivity || discriminate));
    try (destruct sa; (reflexivity || discriminate));
    try (destruct sb; (reflexivity || discriminate));
    try discriminate.
  destruct sa, sb; try discriminate. intros _ _.
  cbn [SFadd cond_Zopp]. apply binary_normalize_nonneg. lia.
Qed.

Lemma SFopp_nonneg a :
  SFleb a (S754_zero false) = true -> is_nonneg (SFopp a) = true.
Proof.
  destruct a as [s|s| |s m e]; try destruct s; intros H;
    (reflexivity || discriminate).
Qed.

Lemma SFmul_not_nan a sb mb eb :
  SFis_nan a = false ->
  SFis_nan (SFmul prec emax a (S754_finite sb mb eb)) = false.
Proof.
  destruct a as [sa|sa| |sa ma ea]; try reflexivity; try discriminate.
  intros _. cbn [SFmul].
  pose proof (binary_round_aux_sign (xorb sa sb) (Z.pos (ma * mb)) (ea + eb)
                loc_Exact ltac:(lia)) as H.
  destruct (binary_round_aux _ _ _ _ _ _); cbn in *; try reflexivity.
  contradiction.
Qed.

(** *** The same facts on primitive floats *)

Local Open Scope float_scope.

Lemma is_nan_spec x : is_nan x = SFis_nan (Prim2SF x).
Proof.
  unfold is_nan. rewrite FloatAxioms.eqb_spec, SFeqb_refl.
  apply negb_involutive.
Qed.

(** The comparator [(a, b) => b - a] is positive exactly when [a < b]. *)
Lemma ltb_sub x y : (0 <? y - x) = (x <? y).
Proof.
  rewrite !ltb_spec, sub_spec.
  change (Prim2SF 0) with (S754_zero false).
  apply SFsub_pos_iff; apply Prim2SF_valid.
Qed.

Lemma ltb_trans x y z : (x <? y) = true -> (y <? z) = true -> (x <? z) = true.
Proof. rewrite !ltb_spec. apply SFltb_trans. Qed.

Lemma ltb_asym x y : (x <? y) = true -> (y <? x) = false.
Proof. rewrite !ltb_spec. apply SFltb_asym. Qed.

Lemma nlt_trans x y z :
  is_nan y = false ->
  (x <? y) = false -> (y <? z) = false -> (x <? z) = false.
Proof. rewrite is_nan_spec, !ltb_spec. apply SFnlt_trans. Qed.

Lemma eqb_not_ltb x y s :
  (x =? s) = true -> (y =? s) = true -> (x <? y) = false.
Proof. rewrite !FloatAxioms.eqb_spec, ltb_spec. apply SFeqb_not_lt. Qed.

Lemma leb_not_ltb x y : (y <=? x) = true -> (x <? y) = false.
Proof. rewrite leb_spec, ltb_spec. apply SFleb_not_ltb. Qed.

(** Between numbers that are not NaN, "not less" is "greater or equal". *)
Lemma nltb_leb x y :
  is_nan x = false -> is_nan y = false ->
  (x <? y) = false -> (y <=? x) = true.
Proof. rewrite !is_nan_spec, leb_spec, ltb_spec. apply SFnltb_leb. Qed.

Lemma leb_antisym x y :
  (x <=? y) = true -> (y <=? x) = true -> (x =? y) = true.
Proof. rewrite !leb_spec, FloatAxioms.eqb_spec. apply SFleb_antisym. Qed.

Lemma leb_not_nan x y :
  (x <=? y) = true -> is_nan x = false /\ is_nan y = false.
Proof. rewrite !is_nan_spec, leb_spec. apply SFleb_not_nan. Qed.

Lemma eqb_refl x : is_nan x = false -> (x =? x) = true.
Proof.
  rewrite is_nan_spec, FloatAxioms.eqb_spec, SFeqb_refl. intros ->. reflexivity.
Qed.

Lemma leb_refl x : is_nan x = false -> (x <=? x) = true.
Proof.
  intros H. apply nltb_leb; try exact H.
  apply (eqb_not_ltb x x x); apply eqb_refl, H.
Qed.

Lemma leb_add_nonneg x y :
  (0 <=? x) = true -> (0 <=? y) = true -> (0 <=? x + y) = true.
Proof.
  rewrite !leb_spec, add_spec. change (Prim2SF 0) with (S754_zero false).
  apply SFadd_nonneg.
Qed.

Lemma leb_opp_nonneg x : (x <=? 0) = true -> (0 <=? - x) = true.
Proof.
  rewrite !leb_spec, opp_spec. change (Prim2SF 0) with (S754_zero false).
  apply SFopp_nonneg.
Qed.

Lemma binary_normalize_not_nan z e s :
  SFis_nan (binary_normalize prec emax z e s) = false.
Proof.
  destruct z as [|p|p]; cbn [binary_normalize]; [reflexivity| |].
  - pose proof (binary_round_sign false p e) as H.
    destruct (binary_round _ _ _ _ _); cbn in *; try reflexivity.
    contradiction.
  - pose proof (binary_round_sign true p e) as H.
    destruct (binary_round _ _ _ _ _); cbn in *; try reflexivity.
    contradiction.
Qed.

Lemma is_nan_mul_finite x c :
  (exists s m e, Prim2SF c = S754_finite s m e) ->
  is_nan x = false -> is_nan (x * c) = false.
Proof.
  intros (s & m & e & Hc). rewrite !is_nan_spec, mul_spec, Hc.
  apply SFmul_not_nan.
Qed.

Lemma is_nan_opp x : is_nan (- x) = is_nan x.
Proof.
  rewrite !is_nan_spec, opp_spec. destruct (Prim2SF x); reflexivity.
Qed.

Lemma is_nan_float_of_Z z : is_nan (float_of_Z z) = false.
Proof.
  destruct z as [|p|p]; cbn [float_of_Z]; [reflexivity| |].
  - rewrite is_nan_spec, of_uint63_spec. apply binary_normalize_not_nan.
  - rewrite is_nan_opp, is_nan_spec, of_uint63_spec.
    apply binary_normalize_not_nan.
Qed.

Lemma is_nan_Math_floor x : is_nan x = false -> is_nan (Math_floor x) = false.
Proof.
  intros H. unfold Math_floor.
  destruct (Prim2SF x) as [s|s| |s m e]; try exact H.
  destruct (0 <=? e)%Z; [exact H|]. apply is_nan_float_of_Z.
Qed.

(** A cap below the floor wins: [min(cap, max(floor, y))] is the cap. *)
Lemma Math_min_max_cap cap lo y :
  is_nan cap = false -> is_nan lo = false -> is_nan y = false ->
  (cap <? lo) = true -> get_sign lo = false ->
  Math_min cap (Math_max lo y) = cap.
Proof.
  intros Hc Hl Hy Hlt Hs.
  assert (Hmin : forall m, is_nan m = false -> (cap <? m) = true ->
                           Math_min cap m = cap).
  { intros m Hm Hcm. unfold Math_min. rewrite Hc, Hm, Hcm. reflexivity. }
  unfold Math_max. rewrite Hl, Hy. cbn [orb].
  destruct (lo <? y) eqn:E1.
  - apply Hmin; [exact Hy|]. exact (ltb_trans _ _ _ Hlt E1).
  - destruct (y <? lo); [apply Hmin; assumption|].
    rewrite Hs. apply Hmin; assumption.
Qed.

Lemma slice0_firstn {X} (l : list X) end_ k :
  ToIntegerOrInfinity end_ = Integer k -> (0 <= k)%Z ->
  slice0 l end_ = firstn (Z.to_nat k) l.
Proof.
  intros H Hk. unfold slice0. rewrite H.
  destruct (Z.ltb_spec k 0); [lia|].
  destruct (Z.le_ge_cases k (Z.of_nat (List.length l))) as [Hle|Hge].
  - rewrite Z.min_l by exact Hle. reflexivity.
  - rewrite Z.min_r by exact Hge. rewrite Nat2Z.id.
    rewrite firstn_all, firstn_all2 by lia. reflexivity.
Qed.

End IEEE_facts.

(** ** Strings *)

Module Js_facts.
Import Js.

Lemma dropWhiteSpace_nil l :
  dropWhiteSpace l = [] <-> forallb isWhiteSpace l = true.
Proof.
  induction l as [|c l IH]; cbn.
  - tauto.
  - destruct (isWhiteSpace c); cbn; [exact IH|].
    split; discriminate.
Qed.

Lemma forallb_dropWhiteSpace l :
  forallb isWhiteSpace (dropWhiteSpace l) = forallb isWhiteSpace l.
Proof.
  induction l as [|c l IH]; cbn; [reflexivity|].
  destruct (isWhiteSpace c) eqn:E; cbn; [exact IH|].
  rewrite E. reflexivity.
Qed.

Lemma forallb_rev {A} (p : A -> bool) l : forallb p (rev l) = forallb p l.
Proof.
  induction l as [|a l IH]; cbn; [reflexivity|].
  rewrite forallb_app, IH. cbn. rewrite andb_true_r. apply andb_comm.
Qed.

Lemma string_of_list_ascii_nil l :
  string_of_list_ascii l = EmptyString <-> l = [].
Proof. destruct l; cbn; split; (reflexivity || discriminate). Qed.

(** [trim] leaves nothing exactly of the blank lines. *)
Lemma trim_empty_iff s : trim s = EmptyString <-> blank s = true.
Proof.
  unfold trim, blank. rewrite string_of_list_ascii_nil.
  set (l := list_ascii_of_string s).
  split; intros H.
  - assert (H' : dropWhiteSpace (rev (dropWhiteSpace l)) = []).
    { destruct (dropWhiteSpace (rev (dropWhiteSpace l))); [reflexivity|].
      cbn in H. destruct (rev l0); discriminate. }
    apply dropWhiteSpace_nil in H'.
    rewrite forallb_rev, forallb_dropWhiteSpace in H'. exact H'.
  - assert (H' : dropWhiteSpace (rev (dropWhiteSpace l)) = []).
    { apply dropWhiteSpace_nil.
      rewrite forallb_rev, forallb_dropWhiteSpace. exact H. }
    rewrite H'. reflexivity.
Qed.

Lemma trim_nonempty s : negb (String.eqb (trim s) "") = negb (blank s).
Proof.
  f_equal. destruct (blank s) eqn:B.
  - apply trim_empty_iff in B. rewrite B. reflexivity.
  - apply String.eqb_neq. intros E. apply trim_empty_iff in E. congruence.
Qed.

End Js_facts.

(** ** The program *)

Module Scan_facts.
Import IEEE IEEE_facts Js Js_facts Scan.
Local Open Scope float_scope.

(** *** Sorting by a numeric key, greatest first *)

Section SortFacts.
Variable A : Type.
Variable key : A -> float.

Let compare (a b : A) : float := key b - key a.
Let R (a b : A) : Prop := desc (key a) (key b).

Lemma sort_insert_perm x l : Permutation (x :: l) (sort_insert compare x l).
Proof.
  induction l as [|y l IH]; cbn; [reflexivity|].
  destruct (0 <? key y - key x); [|reflexivity].
  rewrite perm_swap. apply perm_skip, IH.
Qed.

Lemma Array_sort_perm l : Permutation l (Array_sort compare l).
Proof.
  induction l as [|x l IH]; cbn; [constructor|].
  rewrite <- sort_insert_perm. apply perm_skip, IH.
Qed.

Lemma sort_insert_hd x y l :
  R y x -> HdRel R y l -> HdRel R y (sort_insert compare x l).
Proof.
  intros Hyx Hl. destruct l as [|z l]; cbn.
  - constructor. exact Hyx.
  - destruct (0 <? key z - key x); constructor; [|exact Hyx].
    inversion Hl; assumption.
Qed.

Lemma sort_insert_sorted x l :
  Sorted R l -> Sorted R (sort_insert compare x l).
Proof.
  induction l as [|y l IH]; intros Hs; cbn.
  - repeat constructor.
  - inversion Hs as [|? ? Hl Hhd]; subst.
    destruct (0 <? key y - key x) eqn:E; rewrite ltb_sub in E.
    + constructor; [apply IH, Hl|].
      apply sort_insert_hd; [|exact Hhd]. apply ltb_asym, E.
    + constructor; [exact Hs|]. constructor. exact E.
Qed.

Lemma Array_sort_sorted l : Sorted R (Array_sort compare l).
Proof.
  induction l as [|x l IH]; cbn; [constructor|].
  apply sort_insert_sorted, IH.
Qed.

Lemma sort_insert_strongly_sorted x l :
  Forall (fun a => is_nan (key a) = false) l ->
  StronglySorted R l -> StronglySorted R (sort_insert compare x l).
Proof.
  induction l as [|y l IH]; intros Hn Hs; cbn.
  - repeat constructor.
  - inversion Hs as [|? ? Hl Hall]; subst.
    inversion Hn as [|? ? Hy Hn']; subst.
    destruct (0 <? key y - key x) eqn:E; rewrite ltb_sub in E.
    + constructor; [apply IH; assumption|].
      apply (Permutation_Forall (sort_insert_perm x l)).
      constructor; [apply ltb_asym, E|exact Hall].
    + constructor; [exact Hs|]. constructor; [exact E|].
      eapply Forall_impl; [|exact Hall]. intros z Hz.
      exact (nlt_trans _ _ _ Hy E Hz).
Qed.

Lemma Array_sort_strongly_sorted l :
  Forall (fun a => is_nan (key a) = false) l ->
  StronglySorted R (Array_sort compare l).
Proof.
  induction l as [|x l IH]; intros Hn; cbn; [constructor|].
  inversion Hn; subst.
  apply sort_insert_strongly_sorted; [|apply IH; assumption].
  apply (Permutation_Forall (Array_sort_perm l)). assumption.
Qed.

(** Entries of one score are never reordered. *)
Lemma sort_insert_filter s x l :
  filter (fun a => key a =? s) (sort_insert compare x l) =
  filter (fun a => key a =? s) (x :: l).
Proof.
  induction l as [|y l IH]; cbn; [reflexivity|].
  destruct (0 <? key y - key x) eqn:E; [|reflexivity].
  rewrite ltb_sub in E. cbn. rewrite IH. cbn.
  destruct (key x =? s) eqn:Ex, (key y =? s) eqn:Ey; try reflexivity.
  rewrite (eqb_not_ltb _ _ _ Ex Ey) in E. discriminate.
Qed.

Lemma Array_sort_filter s l :
  filter (fun a => key a =? s) (Array_sort compare l) =
  filter (fun a => key a =? s) l.
Proof.
  induction l as [|x l IH]; [reflexivity|].
  change (Array_sort compare (x :: l))
    with (sort_insert compare x (Array_sort compare l)).
  rewrite sort_insert_filter. cbn [filter]. rewrite IH. reflexivity.
Qed.

(** *** Descending order as "greater or equal" *)

Let G (a b : A) : Prop := geq (key a) (key b).
Let number (a : A) : Prop := is_nan (key a) = false.

Lemma StronglySorted_weaken (P Q : A -> A -> Prop) l :
  (forall a b, In a l -> In b l -> P a b -> Q a b) ->
  StronglySorted P l -> StronglySorted Q l.
Proof.
  intros HPQ H. induction H as [|a l _ IH Hall]; constructor.
  - apply IH. intros x y Hx Hy. apply HPQ; right; assumption.
  - rewrite Forall_forall in *. intros b Hb.
    apply HPQ; [left; reflexivity|right; exact Hb|exact (Hall b Hb)].
Qed.

Lemma desc_sorted_geq l :
  Forall number l -> StronglySorted R l -> StronglySorted G l.
Proof.
  intros Hn. apply StronglySorted_weaken. intros a b Ha Hb.
  rewrite Forall_forall in Hn. apply nltb_leb; apply Hn; assumption.
Qed.

(** With no NaN key the sorted list is in descending order throughout. *)
Lemma Array_sort_descending l :
  Forall number l -> StronglySorted G (Array_sort compare l).
Proof.
  intros Hn. apply desc_sorted_geq.
  - apply (Permutation_Forall (Array_sort_perm l)), Hn.
  - apply Array_sort_strongly_sorted, Hn.
Qed.

(** A list of numbers has one stable arrangement in descending order:
    two arrangements in descending order in which the entries of each
    key stand in the same order are the same list. *)
Lemma stable_descending_unique l1 : forall l2,
  Forall number l1 ->
  Permutation l1 l2 ->
  StronglySorted G l1 -> StronglySorted G l2 ->
  (forall s, filter (fun a => key a =? s) l1
             = filter (fun a => key a =? s) l2) ->
  l1 = l2.
Proof.
  induction l1 as [|x l1 IH]; intros l2 Hn Hp H1 H2 Hf.
  - apply Permutation_nil in Hp. symmetry. exact Hp.
  - destruct l2 as [|y l2].
    { apply Permutation_sym, Permutation_nil in Hp. discriminate. }
    pose proof (Permutation_Forall Hp Hn) as Hn2.
    inversion Hn as [|? ? Hx Hn1]; subst.
    inversion Hn2 as [|? ? Hy Hn2']; subst.
    inversion H1 as [|? ? H1' Hall1]; subst.
    inversion H2 as [|? ? H2' Hall2]; subst.
    assert (Hxy : G x y).
    { assert (Hin : In y (x :: l1))
        by (apply (Permutation_in _ (Permutation_sym Hp)); left; reflexivity).
      destruct Hin as [<-|Hin]; [apply leb_refl, Hx|].
      rewrite Forall_forall in Hall1. apply Hall1, Hin. }
    assert (Hyx : G y x).
    { assert (Hin : In x (y :: l2))
        by (apply (Permutation_in _ Hp); left; reflexivity).
      destruct Hin as [<-|Hin]; [apply leb_refl, Hy|].
      rewrite Forall_forall in Hall2. apply Hall2, Hin. }
    assert (E : x = y).
    { specialize (Hf (key x)). cbn in Hf.
      rewrite (eqb_refl _ Hx), (leb_antisym _ _ Hxy Hyx) in Hf.
      injection Hf as E _. exact E. }
    subst y. f_equal. apply IH; try assumption.
    + apply (Permutation_cons_inv Hp).
    + intros s. specialize (Hf s). cbn in Hf.
      destruct (key x =? s); [injection Hf as Hf|]; exact Hf.
Qed.

(** The sorted list is that arrangement. *)
Lemma Array_sort_unique l ranked :
  Forall number l ->
  Permutation l ranked ->
  StronglySorted G ranked ->
  (forall s, filter (fun a => key a =? s) ranked
             = filter (fun a => key a =? s) l) ->
  ranked = Array_sort compare l.
Proof.
  intros Hn Hp Hs Hf. symmetry.
  apply stable_descending_unique.
  - apply (Permutation_Forall (Array_sort_perm l)), Hn.
  - rewrite <- Hp. apply Permutation_sym, Array_sort_perm.
  - apply Array_sort_descending, Hn.
  - exact Hs.
  - intros s. rewrite Array_sort_filter, Hf. reflexivity.
Qed.

(** Two or more entries in descending order are all numbers: a NaN is
    neither above nor below its neighbour. *)
Lemma Sorted_geq_numbers l :
  Sorted G l -> (2 <= List.length l)%nat -> Forall number l.
Proof.
  induction 1 as [|a l Hl IH Hhd]; cbn; [lia|].
  destruct Hhd as [|b l Hab]; cbn; [lia|]. intros _.
  apply leb_not_nan in Hab. destruct Hab as [Hb Ha].
  constructor; [exact Ha|].
  destruct l as [|c l]; [repeat constructor; exact Hb|].
  apply IH. cbn. lia.
Qed.

(** So a list of two or more entries one of which has a NaN key has no
    arrangement in descending order. *)
Lemma no_descending_arrangement l ranked :
  Exists (fun a => is_nan (key a) = true) l ->
  (2 <= List.length l)%nat ->
  Permutation l ranked -> ~ Sorted G ranked.
Proof.
  intros He Hlen Hp Hs.
  rewrite (Permutation_length Hp) in Hlen.
  pose proof (Sorted_geq_numbers ranked Hs Hlen) as Hn.
  apply (Permutation_Forall (Permutation_sym Hp)) in Hn.
  rewrite Forall_forall in Hn. apply Exists_exists in He.
  destruct He as (a & Hin & Ha). unfold number in Hn.
  rewrite (Hn a Hin) in Ha. discriminate.
Qed.

End SortFacts.

(** *** The normalizer and the scorer *)

Section ScoringFacts.
Context {rt : Runtime}.

Lemma normalizeTraits_attributes data l :
  get_opt data "attributes" = JArr l ->
  normalizeTraits data = mapM normalizeTrait l.
Proof. unfold normalizeTraits. intros ->. reflexivity. Qed.

Lemma normalizeTraits_traits data l :
  Array_isArray (get_opt data "attributes") = false ->
  get_opt data "traits" = JArr l ->
  normalizeTraits data = mapM normalizeTrait l.
Proof. unfold normalizeTraits. intros -> ->. reflexivity. Qed.

(** No trait array under either name: the empty list. *)
Lemma normalizeTraits_no_array data :
  Array_isArray (get_opt data "attributes") = false ->
  Array_isArray (get_opt data "traits") = false ->
  normalizeTraits data = Ok [].
Proof. unfold normalizeTraits. intros -> ->. reflexivity. Qed.

(** An entry that is neither [null] nor [undefined] normalizes. *)
Lemma normalizeTrait_returns t :
  nullish t = false -> exists r, normalizeTrait t = Ok r.
Proof.
  intros H. unfold normalizeTrait, coalesce, bind, get.
  destruct t; try discriminate;
    repeat match goal with
           | |- context [if nullish ?v then _ else _] => destruct (nullish v)
           end; eexists; reflexivity.
Qed.

Lemma normalizeTrait_throws t :
  nullish t = true -> normalizeTrait t = Throw TypeError.
Proof. destruct t; try discriminate; reflexivity. Qed.

(** A [null] or [undefined] entry anywhere in the array makes the whole
    [map] throw. *)
Lemma mapM_normalizeTrait_throws l :
  Exists (fun t => nullish t = true) l ->
  mapM normalizeTrait l = Throw TypeError.
Proof.
  induction 1 as [t l Ht|t l _ IH]; cbn.
  - rewrite (normalizeTrait_throws t Ht). reflexivity.
  - rewrite IH. destruct (normalizeTrait t) as [r|[]]; reflexivity.
Qed.

Lemma mapM_returns {X Y} (f : X -> result Y) l :
  Forall (fun x => exists y, f x = Ok y) l ->
  exists ys, mapM f l = Ok ys /\ List.length ys = List.length l.
Proof.
  induction 1 as [|x l [y Hy] _ [ys [IH Hlen]]]; cbn.
  - exists []. split; reflexivity.
  - rewrite Hy. cbn. rewrite IH. cbn. exists (y :: ys).
    split; [reflexivity|]. cbn. rewrite Hlen. reflexivity.
Qed.

(** The normalizer returns on every trait array without [null] entries. *)
Lemma normalizeTraits_returns data l :
  get_opt data "attributes" = JArr l ->
  Forall (fun t => nullish t = false) l ->
  exists ts, normalizeTraits data = Ok ts /\ List.length ts = List.length l.
Proof.
  intros Hd Hl. rewrite (normalizeTraits_attributes _ _ Hd).
  apply mapM_returns. eapply Forall_impl; [|exact Hl].
  intros t. apply normalizeTrait_returns.
Qed.

Lemma score_step_weight acc t :
  score_step acc t = acc + trait_weight t.
Proof.
  unfold score_step, trait_weight.
  destruct (percent t) as [| | | pc | | |]; cbn; try destruct (0 <? pc);
    destruct (rarity t); reflexivity.
Qed.

Lemma score_loop_sum ts acc :
  fold_left score_step ts acc =
  fold_left PrimFloat.add (map trait_weight ts) acc.
Proof.
  revert acc. induction ts as [|t ts IH]; intros acc; cbn; [reflexivity|].
  rewrite IH, score_step_weight. reflexivity.
Qed.

Lemma trait_weight_nonneg t :
  nonneg_trait t -> (0 <=? trait_weight t) = true.
Proof.
  unfold nonneg_trait, trait_weight.
  destruct (percent t) as [| | | pc | | |]; try destruct (0 <? pc);
    destruct (rarity t); intros H;
    solve [ exact H | reflexivity | apply leb_opp_nonneg, H ].
Qed.

Lemma sum_nonneg ws acc :
  (0 <=? acc) = true -> Forall (fun w => (0 <=? w) = true) ws ->
  (0 <=? fold_left PrimFloat.add ws acc) = true.
Proof.
  revert acc. induction ws as [|w ws IH]; intros acc Ha Hw; cbn; [exact Ha|].
  inversion Hw; subst. apply IH; [|assumption].
  apply leb_add_nonneg; assumption.
Qed.

End ScoringFacts.

(** *** The retry loops *)

Lemma next_backoff_generate_cap backoff :
  is_nan backoff = false -> next_backoff_generate backoff = maxBack.
Proof.
  intros H. unfold next_backoff_generate.
  apply Math_min_max_cap; try reflexivity.
  apply is_nan_Math_floor, is_nan_mul_finite; [|exact H].
  vm_compute. eauto.
Qed.

Lemma next_backoff_sign_cap backoff :
  is_nan backoff = false -> next_backoff_sign backoff = maxBack.
Proof.
  intros H. unfold next_backoff_sign.
  apply Math_min_max_cap; try reflexivity.
  apply is_nan_Math_floor, is_nan_mul_finite; [|exact H].
  vm_compute. eauto.
Qed.

Section FetchingFacts.
Context {rt : Runtime}.
Variable cfg : Config.

Lemma generate_succeeded_answer fid a :
  generate_succeeded cfg fid a = true -> succeeded a = true.
Proof.
  destruct a as [st d|]; cbn [generate_succeeded]; [|discriminate].
  intros H. apply andb_prop in H. apply H.
Qed.

Lemma sign_succeeded_answer fid a :
  sign_succeeded cfg fid a = true -> succeeded a = true.
Proof.
  destruct a as [st d|]; cbn [sign_succeeded]; [|discriminate].
  intros H. apply andb_prop in H. apply H.
Qed.

(** The two ways a turn of the generate loop ends. *)
Lemma generateMeta_loop_stop fid backoff status data later :
  generate_succeeded cfg fid (HttpResponse status data) = true ->
  generateMeta_loop cfg fid backoff (HttpResponse status data :: later)
  = (Some {| gen_ok := true;
             gen_data := data;
             gen_jsonPath :=
               path_join (OUTDIR cfg) ("warplet-" ++ fid ++ ".json");
             gen_pngPath := maybeSavePng cfg data fid |}, []).
Proof.
  cbn [generate_succeeded succeeded generateMeta_loop]. intros H.
  apply andb_prop in H. destruct H as [H1 H2]. rewrite H1, H2. reflexivity.
Qed.

Lemma generateMeta_loop_retry fid backoff a later :
  generate_succeeded cfg fid a = false ->
  generateMeta_loop cfg fid backoff (a :: later)
  = let (res, delays) :=
      generateMeta_loop cfg fid (next_backoff_generate backoff) later in
    (res, next_backoff_generate backoff :: delays).
Proof.
  destruct a as [st d|]; [|reflexivity].
  cbn [generate_succeeded succeeded generateMeta_loop].
  destruct ((st =? 200)%Z && truthy d); [|reflexivity].
  cbn [andb]. intros ->. reflexivity.
Qed.

Lemma requestSignature_loop_stop fid backoff status data later :
  sign_succeeded cfg fid (HttpResponse status data) = true ->
  requestSignature_loop cfg fid backoff (HttpResponse status data :: later)
  = (Some {| sign_ok := true;
             sign_data := data;
             sign_path :=
               path_join (OUTDIR cfg) ("sign-" ++ fid ++ ".json") |}, []).
Proof.
  cbn [sign_succeeded succeeded requestSignature_loop]. intros H.
  apply andb_prop in H. destruct H as [H1 H2]. rewrite H1, H2. reflexivity.
Qed.

Lemma requestSignature_loop_retry fid backoff a later :
  sign_succeeded cfg fid a = false ->
  requestSignature_loop cfg fid backoff (a :: later)
  = let (res, delays) :=
      requestSignature_loop cfg fid (next_backoff_sign backoff) later in
    (res, next_backoff_sign backoff :: delays).
Proof.
  destruct a as [st d|]; [|reflexivity].
  cbn [sign_succeeded succeeded requestSignature_loop].
  destruct ((st =? 200)%Z && truthy d); [|reflexivity].
  cbn [andb]. intros ->. reflexivity.
Qed.

Lemma generateMeta_loop_delays fid attempts : forall backoff,
  is_nan backoff = false ->
  Forall (fun d => d = maxBack)
         (snd (generateMeta_loop cfg fid backoff attempts)).
Proof.
  induction attempts as [|a later IH]; intros backoff Hb; [constructor|].
  destruct (generate_succeeded cfg fid a) eqn:E.
  - destruct a as [st d|]; [|discriminate].
    rewrite (generateMeta_loop_stop _ _ _ _ _ E). constructor.
  - rewrite (generateMeta_loop_retry _ _ _ _ E).
    rewrite (next_backoff_generate_cap _ Hb).
    specialize (IH maxBack eq_refl).
    destruct (generateMeta_loop cfg fid maxBack later) as [res delays].
    cbn in *. constructor; [reflexivity|exact IH].
Qed.

Lemma requestSignature_loop_delays fid attempts : forall backoff,
  is_nan backoff = false ->
  Forall (fun d => d = maxBack)
         (snd (requestSignature_loop cfg fid backoff attempts)).
Proof.
  induction attempts as [|a later IH]; intros backoff Hb; [constructor|].
  destruct (sign_succeeded cfg fid a) eqn:E.
  - destruct a as [st d|]; [|discriminate].
    rewrite (requestSignature_loop_stop _ _ _ _ _ E). constructor.
  - rewrite (requestSignature_loop_retry _ _ _ _ E).
    rewrite (next_backoff_sign_cap _ Hb).
    specialize (IH maxBack eq_refl).
    destruct (requestSignature_loop cfg fid maxBack later) as [res delays].
    cbn in *. constructor; [reflexivity|exact IH].
Qed.

(** Attempts up to the first one that ends a loop. *)
Lemma first_split (ends : HttpOutcome -> bool) attempts :
  (forall a, ends a = true -> succeeded a = true) ->
  existsb ends attempts = true ->
  exists failed status data later,
    attempts = failed ++ HttpResponse status data :: later
    /\ forallb (fun a => negb (ends a)) failed = true
    /\ ends (HttpResponse status data) = true.
Proof.
  intros Hends.
  induction attempts as [|a later IH]; cbn; [discriminate|].
  destruct (ends a) eqn:Ea; cbn.
  - intros _. destruct a as [st d|].
    + exists [], st, d, later. repeat split. exact Ea.
    + apply Hends in Ea. discriminate.
  - intros H. destruct (IH H) as (failed & st & d & later' & -> & Hf & Hs).
    exists (a :: failed), st, d, later'. repeat split; [|exact Hs].
    cbn. rewrite Ea, Hf. reflexivity.
Qed.

Lemma not_ended_cons (ends : HttpOutcome -> bool) a failed :
  forallb (fun a => negb (ends a)) (a :: failed) = true ->
  ends a = false /\ forallb (fun a => negb (ends a)) failed = true.
Proof.
  cbn. intros H. apply andb_prop in H. destruct H as [H1 H2].
  split; [|exact H2]. apply negb_true_iff, H1.
Qed.

Lemma generateMeta_loop_split fid failed status data later : forall backoff,
  is_nan backoff = false ->
  forallb (fun a => negb (generate_succeeded cfg fid a)) failed = true ->
  generate_succeeded cfg fid (HttpResponse status data) = true ->
  generateMeta_loop cfg fid backoff
    (failed ++ HttpResponse status data :: later)
  = (Some {| gen_ok := true;
             gen_data := data;
             gen_jsonPath :=
               path_join (OUTDIR cfg) ("warplet-" ++ fid ++ ".json");
             gen_pngPath := maybeSavePng cfg data fid |},
     repeat maxBack (List.length failed)).
Proof.
  induction failed as [|a failed IH]; intros backoff Hb Hf Hs.
  - apply generateMeta_loop_stop, Hs.
  - apply not_ended_cons in Hf. destruct Hf as [Ha Hf].
    cbn [app]. rewrite (generateMeta_loop_retry _ _ _ _ Ha).
    rewrite (next_backoff_generate_cap _ Hb).
    rewrite (IH maxBack eq_refl Hf Hs). reflexivity.
Qed.

Lemma generateMeta_loop_none fid attempts : forall backoff,
  is_nan backoff = false ->
  existsb (generate_succeeded cfg fid) attempts = false ->
  generateMeta_loop cfg fid backoff attempts
  = (None, repeat maxBack (List.length attempts)).
Proof.
  induction attempts as [|a later IH]; intros backoff Hb Hn; [reflexivity|].
  cbn in Hn. apply orb_false_iff in Hn. destruct Hn as [Ha Hn].
  rewrite (generateMeta_loop_retry _ _ _ _ Ha).
  rewrite (next_backoff_generate_cap _ Hb), (IH maxBack eq_refl Hn).
  reflexivity.
Qed.

Lemma requestSignature_loop_split fid failed status data later :
  forall backoff,
  is_nan backoff = false ->
  forallb (fun a => negb (sign_succeeded cfg fid a)) failed = true ->
  sign_succeeded cfg fid (HttpResponse status data) = true ->
  requestSignature_loop cfg fid backoff
    (failed ++ HttpResponse status data :: later)
  = (Some {| sign_ok := true;
             sign_data := data;
             sign_path :=
               path_join (OUTDIR cfg) ("sign-" ++ fid ++ ".json") |},
     repeat maxBack (List.length failed)).
Proof.
  induction failed as [|a failed IH]; intros backoff Hb Hf Hs.
  - apply requestSignature_loop_stop, Hs.
  - apply not_ended_cons in Hf. destruct Hf as [Ha Hf].
    cbn [app]. rewrite (requestSignature_loop_retry _ _ _ _ Ha).
    rewrite (next_backoff_sign_cap _ Hb).
    rewrite (IH maxBack eq_refl Hf Hs). reflexivity.
Qed.

Lemma requestSignature_loop_none fid attempts : forall backoff,
  is_nan backoff = false ->
  existsb (sign_succeeded cfg fid) attempts = false ->
  requestSignature_loop cfg fid backoff attempts
  = (None, repeat maxBack (List.length attempts)).
Proof.
  induction attempts as [|a later IH]; intros backoff Hb Hn; [reflexivity|].
  cbn in Hn. apply orb_false_iff in Hn. destruct Hn as [Ha Hn].
  rewrite (requestSignature_loop_retry _ _ _ _ Ha).
  rewrite (next_backoff_sign_cap _ Hb), (IH maxBack eq_refl Hn).
  reflexivity.
Qed.

(** No attempt ends the loop where none has the answer it waits for. *)
Lemma no_answer_no_generate fid attempts :
  existsb succeeded attempts = false ->
  existsb (generate_succeeded cfg fid) attempts = false.
Proof.
  induction attempts as [|a later IH]; cbn; [reflexivity|].
  intros H. apply orb_false_iff in H. destruct H as [Ha Hl].
  rewrite (IH Hl), orb_false_r.
  destruct (generate_succeeded cfg fid a) eqn:E; [|reflexivity].
  apply generate_succeeded_answer in E. congruence.
Qed.


(** A reply of the sign loop is always [ok], at the path of its
    identifier. *)
Lemma requestSignature_loop_reply fid attempts r : forall backoff,
  is_nan backoff = false ->
  fst (requestSignature_loop cfg fid backoff attempts) = Some r ->
  sign_ok r = true
  /\ sign_path r = path_join (OUTDIR cfg) ("sign-" ++ fid ++ ".json").
Proof.
  intros backoff Hb H.
  destruct (existsb (sign_succeeded cfg fid) attempts) eqn:E.
  - destruct (first_split _ attempts (sign_succeeded_answer fid) E)
      as (failed & st & d & later & -> & Hf & Hs).
    rewrite (requestSignature_loop_split fid failed st d later backoff
               Hb Hf Hs) in H.
    cbn in H. injection H as <-. split; reflexivity.
  - rewrite (requestSignature_loop_none fid attempts backoff Hb E) in H.
    discriminate.
Qed.

End FetchingFacts.

(** *** Main *)

Lemma all_from_length {X Y} (f : nat -> X -> option Y) l : forall i ys,
  all_from f i l = Some ys -> List.length ys = List.length l.
Proof.
  induction l as [|x l IH]; intros i ys; cbn.
  - intros [= <-]. reflexivity.
  - destruct (f i x); [|discriminate].
    destruct (all_from f (S i) l) eqn:E; [|discriminate].
    intros [= <-]. cbn. f_equal. exact (IH _ _ E).
Qed.




Lemma In_firstn {X} (x : X) n l : In x (firstn n l) -> In x l.
Proof.
  revert l. induction n as [|n IH]; intros [|a l]; cbn; try tauto.
  intros [H|H]; [left; exact H|right; exact (IH _ H)].
Qed.



Section MainFacts.
Context {rt : Runtime}.
Variable cfg : Config.
Variable world : World.

Lemma generateMeta_loop_returns fid attempts : forall backoff,
  is_nan backoff = false ->
  existsb (generate_succeeded cfg fid) attempts = true ->
  exists status data res,
    In (HttpResponse status data) attempts
    /\ succeeded (HttpResponse status data) = true
    /\ fst (generateMeta_loop cfg fid backoff attempts) = Some res
    /\ gen_data res = data.
Proof.
  intros backoff Hb E.
  destruct (first_split _ attempts (generate_succeeded_answer cfg fid) E)
    as (failed & st & d & later & -> & Hf & Hs).
  rewrite (generateMeta_loop_split cfg fid failed st d later backoff Hb Hf Hs).
  exists st, d. eexists. split; [apply in_or_app; right; left; reflexivity|].
  split; [exact (generate_succeeded_answer cfg fid _ Hs)|].
  split; reflexivity.
Qed.


Lemma rarityScore_returns data ts :
  normalizeTraits data = Ok ts -> exists s, rarityScore data = Ok s.
Proof.
  intros H. unfold rarityScore. rewrite H.
  destruct (String.eqb _ _); eexists; reflexivity.
Qed.









(** What a completed run went through. *)
Lemma main_inv infile rs :
  main cfg world infile = Some rs ->
  exists metas sigResults,
    all_from (scan_one cfg world) 0 (fids infile) = Some metas
    /\ all_from (sign_one cfg world) 0 (targets cfg (sort_metas metas))
       = Some sigResults
    /\ rs = rows cfg (sort_metas metas) sigResults.
Proof.
  unfold main.
  destruct (all_from (scan_one cfg world) 0 (fids infile)) as [metas|];
    [|discriminate].
  destruct (all_from (sign_one cfg world) 0 _) as [sigs|] eqn:E;
    [|discriminate].
  intros [= <-]. exists metas, sigs. repeat split. exact E.
Qed.


End MainFacts.

End Scan_facts.

(* ================================================================== *)
(** * Part III: the properties of the specification *)
(* ================================================================== *)

Import IEEE IEEE_facts Js Js_facts Scan Scan_facts.
Local Open Scope float_scope.

(** ** The scorer *)

(** C1.  For every payload that carries no top-level numeric
    [rarityScore], the scorer returns the sum, over the normalized traits
    in their order, of [-ln(percent/100)] when the trait's percent is a
    number above 0, else the trait's rarity number when it is one, else
    0.5, rounded to 6 decimals (and it throws exactly when the normalizer
    does).  A percent equal to 0 or below 0 falls through to the rarity
    and default branches. *)
Theorem rarityScore_rounded_sum (rt : Runtime) (data : JsVal) :
  typeof (get_opt data "rarityScore") <> "number"%string ->
  rarityScore data
    = bind (normalizeTraits data) (fun traits => Ok (spec_score traits))
  /\ (forall t pc,
         percent t = JNum pc ->
         (pc =? 0) = true \/ (pc <? 0) = true ->
         trait_weight t = match rarity t with JNum r => r | _ => 0.5 end).
Proof.
  intros Hno. split.
  - unfold rarityScore, spec_score.
    apply String.eqb_neq in Hno. rewrite Hno.
    destruct (normalizeTraits data) as [ts|e]; cbn;
      rewrite ?score_loop_sum; reflexivity.
  - intros t pc Hp Hpc. unfold trait_weight. rewrite Hp.
    assert (H0 : (0 <? pc) = false).
    { destruct Hpc as [H|H].
      - apply (eqb_not_ltb 0 pc 0); [reflexivity|exact H].
      - apply ltb_asym, H. }
    rewrite H0. reflexivity.
Qed.

Lemma rarityScore_rounded_sum_witness :
  typeof (get_opt Sample.payload_attributes "rarityScore") <> "number"%string
  /\ @rarityScore Sample.runtime Sample.payload_attributes
     = bind (@normalizeTraits Sample.runtime Sample.payload_attributes)
            (fun traits => Ok (@spec_score Sample.runtime traits)).
Proof.
  assert (H : typeof (get_opt Sample.payload_attributes "rarityScore")
              <> "number"%string) by (cbn; discriminate).
  split; [exact H|].
  exact (proj1 (rarityScore_rounded_sum Sample.runtime
                  Sample.payload_attributes H)).
Defined.

(** C2, as stated, fails: a negative top-level [rarityScore] is returned
    as it is, whatever the runtime. *)
Lemma rarityScore_negative_verbatim :
  (forall rt : Runtime, @rarityScore rt (Sample.scored (-1)) = Ok (-1))
  /\ (0 <=? -1) = false
  /\ (forall rt : Runtime,
        @rarityScore rt Sample.payload_negative_rarity
        = Ok (Number_toFixed6 (-3))).
Proof. repeat split; intros; reflexivity. Qed.

(** C2, amended.  The score is non-negative for every payload whose
    top-level [rarityScore], when it is a number, is at least 0, and whose
    normalized traits are all built from non-negative data
    ([nonneg_trait]: a positive percent at most 100, so that the logarithm
    of [percent/100] is at most 0, and otherwise a rarity number at least
    0), on a runtime whose rounding to 6 decimals keeps a non-negative
    number non-negative. *)
Theorem rarityScore_nonneg (rt : Runtime) (data : JsVal) (s : float) :
  (forall x, (0 <=? x) = true -> (0 <=? Number_toFixed6 x) = true) ->
  (forall x, get_opt data "rarityScore" = JNum x -> (0 <=? x) = true) ->
  (forall traits, normalizeTraits data = Ok traits ->
                  Forall nonneg_trait traits) ->
  rarityScore data = Ok s ->
  (0 <=? s) = true.
Proof.
  intros Hround Htop Htraits. unfold rarityScore.
  assert (Hsum : bind (normalizeTraits data)
                   (fun traits =>
                      Ok (Number_toFixed6 (fold_left score_step traits 0)))
                 = Ok s -> (0 <=? s) = true).
  { destruct (normalizeTraits data) as [ts|e] eqn:E; cbn; [|discriminate].
    intros [= <-]. apply Hround. rewrite score_loop_sum.
    apply sum_nonneg; [reflexivity|].
    apply Forall_map. eapply Forall_impl; [|exact (Htraits ts eq_refl)].
    intros t. apply trait_weight_nonneg. }
  destruct (get_opt data "rarityScore") as [| | | x | | |]; try exact Hsum.
  cbn. intros [= <-]. apply Htop. reflexivity.
Qed.

Lemma rarityScore_nonneg_witness :
  exists s, @rarityScore Sample.runtime Sample.payload_attributes = Ok s
            /\ (0 <=? s) = true.
Proof.
  eexists. split; [reflexivity|].
  apply (@rarityScore_nonneg Sample.runtime Sample.payload_attributes).
  - intros x H. exact H.
  - intros x H. discriminate H.
  - intros traits H. vm_compute in H. injection H as <-.
    repeat constructor.
  - reflexivity.
Defined.

(** ** The normalizer *)

(** C3, at the input where the code fails: a trait array with a [null]
    entry makes the normalizer throw a [TypeError] instead of returning a
    list (on every runtime), because the callback reads [t.percent]
    without the guard that [data?.attributes] has. *)
Theorem normalizeTraits_null_entry_throws (rt : Runtime) :
  normalizeTraits Sample.payload_null_entry = Throw TypeError
  /\ rarityScore Sample.payload_null_entry = Throw TypeError.
Proof. split; reflexivity. Qed.

(** C7.  A payload that stores the trait array [l] under [traits], and has
    no [attributes] field, normalizes to the same result as a payload that
    stores [l] under [attributes]. *)
Theorem traits_alias_of_attributes (rt : Runtime) (d1 d2 : JsVal)
    (l : list JsVal) :
  get_opt d1 "attributes" = JUndefined ->
  get_opt d1 "traits" = JArr l ->
  get_opt d2 "attributes" = JArr l ->
  normalizeTraits d1 = normalizeTraits d2.
Proof.
  intros H1 H2 H3.
  rewrite (normalizeTraits_traits d1 l), (normalizeTraits_attributes d2 l);
    try assumption; [reflexivity|].
  rewrite H1. reflexivity.
Qed.

Lemma traits_alias_of_attributes_witness :
  @normalizeTraits Sample.runtime Sample.payload_traits
  = @normalizeTraits Sample.runtime Sample.payload_attributes.
Proof.
  eapply (@traits_alias_of_attributes Sample.runtime); reflexivity.
Defined.

(** C10.  When [attributes] and [traits] are both arrays, the normalizer
    reads [attributes] only: two payloads with the same [attributes] array
    normalize alike whatever their [traits] arrays hold. *)
Theorem attributes_shadow_traits (rt : Runtime) (d d' : JsVal)
    (a t t' : list JsVal) :
  get_opt d "attributes" = JArr a -> get_opt d "traits" = JArr t ->
  get_opt d' "attributes" = JArr a -> get_opt d' "traits" = JArr t' ->
  normalizeTraits d = normalizeTraits d'
  /\ normalizeTraits d = mapM normalizeTrait a.
Proof.
  intros Ha _ Ha' _.
  rewrite (normalizeTraits_attributes d a Ha),
    (normalizeTraits_attributes d' a Ha').
  split; reflexivity.
Qed.

Lemma attributes_shadow_traits_witness :
  @normalizeTraits Sample.runtime Sample.payload_both
  = @normalizeTraits Sample.runtime Sample.payload_both'.
Proof.
  exact (proj1 (@attributes_shadow_traits Sample.runtime
                  Sample.payload_both Sample.payload_both'
                  [JObj [("percent"%string, JNum 50)]]
                  [JObj [("rarity"%string, JNum 2)]] [JNull; JStr "x"]
                  eq_refl eq_refl eq_refl eq_refl)).
Defined.

(** ** The retry loops *)

(** C4, as stated, fails: after a failed first attempt (previous backoff
    10 ms) both loops compute 50 ms, the cap, and not the floor of 500 ms
    or 800 ms. *)
Lemma backoff_is_not_the_floor :
  next_backoff_generate 10 = 50 /\ (50 =? 500) = false
  /\ next_backoff_sign 10 = 50 /\ (50 =? 800) = false.
Proof. repeat split; vm_compute; reflexivity. Qed.

(** C4, amended.  In both retry loops the backoff computed after a failed
    attempt is the cap, 50 ms, for every previous backoff that is a number
    (not NaN), because the floor (500 ms, 800 ms) lies above the cap; so
    every delay either loop hands to the jitter is 50 ms and never the
    floor. *)
Theorem backoff_is_always_the_cap :
  (forall backoff,
      is_nan backoff = false ->
      next_backoff_generate backoff = maxBack
      /\ next_backoff_sign backoff = maxBack)
  /\ (forall (rt : Runtime) cfg fid attempts,
        Forall (fun d => d = maxBack) (snd (generateMeta cfg fid attempts)))
  /\ (forall (rt : Runtime) cfg fid wallet attempts,
        Forall (fun d => d = maxBack)
               (snd (requestSignature cfg fid wallet attempts)))
  /\ maxBack = 50 /\ (maxBack =? 500) = false /\ (maxBack =? 800) = false.
Proof.
  split; [|split; [|split]].
  - intros backoff H. split.
    + apply next_backoff_generate_cap, H.
    + apply next_backoff_sign_cap, H.
  - intros rt cfg fid attempts. apply generateMeta_loop_delays. reflexivity.
  - intros rt cfg fid wallet attempts.
    apply requestSignature_loop_delays. reflexivity.
  - repeat split.
Qed.

Lemma backoff_is_always_the_cap_witness :
  is_nan 10 = false
  /\ next_backoff_generate 10 = maxBack /\ next_backoff_sign 10 = maxBack.
Proof.
  split; [reflexivity|].
  exact (proj1 backoff_is_always_the_cap 10 eq_refl).
Defined.

(** ** Main *)

(** C5, as stated, fails: it speaks of every list of scored entries, and
    a score can be NaN (the scorer returns NaN on the rarities 1e999 and
    -1e999, which read as [Infinity] and [-Infinity]).  Against a NaN
    score the comparator [b.score - a.score] is NaN, which the sort takes
    for "equal": entries scored 5, 3, NaN, 10 stay as they are, the entry
    scored 10 behind those scored 5 and 3.  Nor could any sort do better
    under the claim's reading: no arrangement of these entries has every
    score greater than or equal to the next. *)
Lemma ranking_not_descending_with_NaN :
  map fid (sort_metas Sample.metas_53N10) = ["A"; "B"; "C"; "D"]%string
  /\ map score (sort_metas Sample.metas_53N10) = [5; 3; nan; 10]
  /\ (5 <? 10) = true
  /\ ~ StronglySorted score_desc (sort_metas Sample.metas_53N10)
  /\ (forall ranked,
        Permutation Sample.metas_53N10 ranked -> ~ Sorted score_geq ranked).
Proof.
  split; [reflexivity|]. split; [reflexivity|]. split; [reflexivity|].
  split.
  - intros H. change (sort_metas Sample.metas_53N10)
      with Sample.metas_53N10 in H.
    inversion H as [|? ? _ Hall]; subst.
    rewrite Forall_forall in Hall.
    specialize (Hall (Sample.meta "D" 10)
                  (or_intror (or_intror (or_introl eq_refl)))).
    discriminate Hall.
  - intros ranked. apply (no_descending_arrangement Meta score).
    + right. right. left. reflexivity.
    + cbn. lia.
Qed.

(** C5, amended.  For every list of scored entries none of whose scores
    is NaN, ranking is a stable descending sort on score: the ranked list
    is a rearrangement of the entries in which every entry's score is
    greater than or equal to the score of every later entry, and the
    entries of any one score keep their relative order.  These three
    properties leave one list only, so the ranked list is the same
    whatever algorithm sorts.  Scores 3, 5, 5, 1 on A, B, C, D rank as
    B, C, A, D. *)
Theorem ranking_stable_descending (metas : list Meta) :
  no_NaN_score metas ->
  Permutation metas (sort_metas metas)
  /\ StronglySorted score_geq (sort_metas metas)
  /\ (forall s, filter (fun m => score m =? s) (sort_metas metas)
                = filter (fun m => score m =? s) metas)
  /\ (forall ranked,
        Permutation metas ranked ->
        StronglySorted score_geq ranked ->
        (forall s, filter (fun m => score m =? s) ranked
                   = filter (fun m => score m =? s) metas) ->
        ranked = sort_metas metas)
  /\ map fid (sort_metas Sample.metas_3551) = ["B"; "C"; "A"; "D"]%string.
Proof.
  intros Hn. split; [|split; [|split; [|split]]].
  - apply (Array_sort_perm Meta score).
  - apply (Array_sort_descending Meta score), Hn.
  - intros s. apply (Array_sort_filter Meta score).
  - intros ranked. apply (Array_sort_unique Meta score), Hn.
  - vm_compute. reflexivity.
Qed.

Lemma ranking_stable_descending_witness :
  no_NaN_score Sample.metas_3551
  /\ StronglySorted score_geq (sort_metas Sample.metas_3551)
  /\ (forall ranked,
        Permutation Sample.metas_3551 ranked ->
        StronglySorted score_geq ranked ->
        (forall s, filter (fun m => score m =? s) ranked
                   = filter (fun m => score m =? s) Sample.metas_3551) ->
        ranked = sort_metas Sample.metas_3551).
Proof.
  assert (H : no_NaN_score Sample.metas_3551) by (repeat constructor).
  split; [exact H|].
  destruct (ranking_stable_descending Sample.metas_3551 H)
    as (_ & Hs & _ & Hu & _).
  split; [exact Hs|exact Hu].
Defined.

(** C6.  With a wallet address configured and rare-only mode enabled, the
    signature targets are the first K entries, in the order of the ranked
    list, of the entries whose score is at least the minimum threshold,
    where K >= 0 is the integer [TOP_K] stands for; with [TOP_K] 2,
    [MIN_SCORE] 2.0 and entries scored (A,5), (B,3), (C,1), (D,4), ranked
    as A, D, B, C, the targets are A and D. *)
Theorem rare_only_targets (cfg : Config) (metas : list Meta) (k : Z) :
  ADDR cfg <> ""%string ->
  RARE_ONLY cfg = true ->
  ToIntegerOrInfinity (TOP_K cfg) = Integer k ->
  (0 <= k)%Z ->
  targets cfg metas
    = firstn (Z.to_nat k) (filter (fun m => MIN_SCORE cfg <=? score m) metas)
  /\ map fid (sort_metas Sample.metas_5314) = ["A"; "D"; "B"; "C"]%string
  /\ map fid (targets (Sample.config "0xW" true)
                      (sort_metas Sample.metas_5314)) = ["A"; "D"]%string.
Proof.
  intros Ha Hr Hk Hk0. split; [|split; vm_compute; reflexivity].
  unfold targets. apply String.eqb_neq in Ha. rewrite Ha, Hr.
  apply slice0_firstn; assumption.
Qed.

Lemma rare_only_targets_witness :
  targets (Sample.config "0xW" true) (sort_metas Sample.metas_5314)
  = firstn 2 (filter (fun m => 2 <=? score m) (sort_metas Sample.metas_5314)).
Proof.
  refine (proj1 (rare_only_targets (Sample.config "0xW" true)
                   (sort_metas Sample.metas_5314) 2 _ eq_refl eq_refl _)).
  - discriminate.
  - discriminate.
Defined.




(** C9.  With no wallet address configured the signature phase has no
    target, and in the final index every row's [sig_error] is [NO_WALLET]
    and every row's [signature] is empty. *)
Theorem no_wallet_rows (rt : Runtime) (cfg : Config) (world : World)
    (infile : string) :
  ADDR cfg = ""%string ->
  (forall metas, targets cfg metas = [])
  /\ (forall rs,
        main cfg world infile = Some rs ->
        Forall (fun r => sig_error r = "NO_WALLET"%string
                         /\ signature r = ""%string) rs).
Proof.
  intros Haddr.
  assert (Ht : forall metas, targets cfg metas = []).
  { intros metas. unfold targets. rewrite Haddr. reflexivity. }
  split; [exact Ht|].
  intros rs Hrun.
  destruct (main_inv cfg world infile rs Hrun) as (metas & sigs & _ & Hs & ->).
  rewrite Ht in Hs. cbn in Hs. injection Hs as <-.
  unfold rows. apply Forall_map, Forall_forall. intros m _. cbn.
  rewrite Haddr. split; reflexivity.
Qed.

Lemma no_wallet_rows_witness :
  exists rs,
    @main Sample.runtime (Sample.config "" false)
      (Sample.world Sample.payloads_3551) Sample.infile_ABCD = Some rs
    /\ Forall (fun r => sig_error r = "NO_WALLET"%string
                        /\ signature r = ""%string) rs.
Proof.
  eexists. split; [vm_compute; reflexivity|].
  refine (proj2 (@no_wallet_rows Sample.runtime (Sample.config "" false)
                   (Sample.world Sample.payloads_3551) Sample.infile_ABCD
                   eq_refl) _ _).
  vm_compute. reflexivity.
Defined.

(* ================================================================== *)
(** * Part IV: further properties of the program *)
(* ================================================================== *)

(** ** Auxiliary facts *)

Module More_facts.

Lemma mapM_inv {X Y} (f : X -> result Y) l : forall rs,
  mapM f l = Ok rs -> Forall2 (fun x r => f x = Ok r) l rs.
Proof.
  induction l as [|x l IH]; intros rs; cbn.
  - intros [= <-]. constructor.
  - destruct (f x) as [r|e] eqn:Ex; cbn; [|discriminate].
    destruct (mapM f l) as [rs'|e]; cbn; [|discriminate].
    intros [= <-]. constructor; [exact Ex|apply IH; reflexivity].
Qed.

Lemma mapM_Forall {X Y} (f : X -> result Y) (P : Y -> Prop) l rs :
  (forall x r, f x = Ok r -> P r) -> mapM f l = Ok rs -> Forall P rs.
Proof.
  intros HP H. apply mapM_inv in H.
  induction H as [|x r l rs Hx _ IH]; constructor; [exact (HP _ _ Hx)|exact IH].
Qed.

(** The trait array the normalizer maps over. *)
Lemma normalizeTraits_raw {rt : Runtime} data l :
  get_opt data "attributes" = JArr l
  \/ (Array_isArray (get_opt data "attributes") = false
      /\ get_opt data "traits" = JArr l) ->
  normalizeTraits data = mapM normalizeTrait l.
Proof.
  intros [H|[H1 H2]].
  - apply normalizeTraits_attributes, H.
  - apply normalizeTraits_traits; assumption.
Qed.

Lemma mapM_normalizeTrait_cases {rt : Runtime} l :
  (Exists (fun t => nullish t = true) l
   /\ mapM normalizeTrait l = Throw TypeError)
  \/ (Forall (fun t => nullish t = false) l
      /\ exists ts, mapM normalizeTrait l = Ok ts
                    /\ List.length ts = List.length l).
Proof.
  destruct (Exists_dec (fun t => nullish t = true) l) as [He|Hn].
  - intros t. destruct (nullish t); [left; reflexivity|right; discriminate].
  - left. split; [exact He|apply mapM_normalizeTrait_throws, He].
  - right. assert (Hf : Forall (fun t => nullish t = false) l).
    { apply Forall_forall. intros t Ht. destruct (nullish t) eqn:E;
        [|reflexivity].
      exfalso. apply Hn. apply Exists_exists. eauto. }
    split; [exact Hf|]. apply mapM_returns.
    eapply Forall_impl; [|exact Hf]. intros t. apply normalizeTrait_returns.
Qed.

Lemma coalesce_default a d v :
  nullish d = false -> coalesce a (Ok d) = Ok v -> nullish v = false.
Proof.
  intros Hd. unfold coalesce, bind. destruct a as [u|e]; [|discriminate].
  destruct (nullish u) eqn:E; intros [= <-]; assumption.
Qed.

(** A normalized record: its percent is a number or [null], its
    [trait_type] and [value] are never [null] or [undefined]. *)
Lemma normalizeTrait_shape {rt : Runtime} t r :
  normalizeTrait t = Ok r ->
  (percent r = JNull \/ exists x, percent r = JNum x)
  /\ nullish (trait_type r) = false
  /\ nullish (value r) = false.
Proof.
  unfold normalizeTrait.
  repeat match goal with
         | |- bind ?c _ = _ -> _ =>
             let v := fresh "v" in
             let E := fresh "E" in
             destruct c as [v|] eqn:E; cbn [bind]; [|discriminate]
         end.
  intros [= <-]. cbn [percent trait_type value].
  split; [|split].
  - destruct v; cbn; eauto. destruct (endsWith s "%"); eauto.
  - apply coalesce_default in E1; [exact E1|reflexivity].
  - apply coalesce_default in E2; [exact E2|reflexivity].
Qed.


Lemma coalesce_skip u b : nullish u = true -> coalesce (Ok u) b = b.
Proof. intros H. unfold coalesce, bind. rewrite H. reflexivity. Qed.

Lemma all_from_Forall2 {X Y} (f : nat -> X -> option Y) l : forall i ys,
  all_from f i l = Some ys ->
  Forall2 (fun x y => exists j, f j x = Some y) l ys.
Proof.
  induction l as [|x l IH]; intros i ys; cbn.
  - intros [= <-]. constructor.
  - destruct (f i x) as [y|] eqn:Ex; [|discriminate].
    destruct (all_from f (S i) l) as [ys'|] eqn:E; [|discriminate].
    intros [= <-]. constructor; [eauto|exact (IH _ _ E)].
Qed.



Lemma Map_get_none {V} k (entries : list (string * V)) :
  existsb (String.eqb k) (map fst entries) = false ->
  Map_get k entries = None.
Proof.
  induction entries as [|[k' v] rest IH]; cbn; [reflexivity|].
  intros H. apply orb_false_iff in H. destruct H as [Hk Hr].
  rewrite (IH Hr), Hk. reflexivity.
Qed.

Lemma Map_get_some {V} k (entries : list (string * V)) :
  existsb (String.eqb k) (map fst entries) = true ->
  exists v, Map_get k entries = Some v /\ In (k, v) entries.
Proof.
  induction entries as [|[k' v] rest IH]; cbn; [discriminate|].
  intros H. destruct (existsb (String.eqb k) (map fst rest)) eqn:Er.
  - destruct (IH eq_refl) as (v' & Hv' & Hin). rewrite Hv'.
    exists v'. split; [reflexivity|right; exact Hin].
  - rewrite (Map_get_none k rest Er). rewrite orb_false_r in H. rewrite H.
    apply String.eqb_eq in H. subst k'.
    exists v. split; [reflexivity|left; reflexivity].
Qed.

Section SortMore.
Variable A : Type.
Variable key : A -> float.

Lemma sort_insert_head x l :
  HdRel (fun a b => desc (key a) (key b)) x l ->
  sort_insert (fun a b => key b - key a) x l = x :: l.
Proof.
  intros H. destruct H as [|y l Hxy]; cbn; [reflexivity|].
  rewrite ltb_sub. unfold desc in Hxy. rewrite Hxy. reflexivity.
Qed.

(** A list already in descending order is left as it is. *)
Lemma Array_sort_sorted_id l :
  Sorted (fun a b => desc (key a) (key b)) l ->
  Array_sort (fun a b => key b - key a) l = l.
Proof.
  induction 1 as [|x l _ IH Hhd]; [reflexivity|].
  cbn. unfold Array_sort in IH. rewrite IH. apply sort_insert_head, Hhd.
Qed.

End SortMore.

Section MainMore.
Context {rt : Runtime}.
Variable cfg : Config.
Variable world : World.

(** The path of the signature file of an identifier. *)
Let sign_file (fid : string) : string :=
  path_join (OUTDIR cfg) ("sign-" ++ fid ++ ".json").

Lemma sign_one_fields i m s :
  sign_one cfg world i m = Some s ->
  s_fid s = fid m /\ s_ok s = true
  /\ s_path s = sign_file (fid m) /\ s_error s = ""%string.
Proof.
  unfold sign_one, requestSignature.
  destruct (fst (requestSignature_loop cfg (fid m) 10 (sign_http world i)))
    as [r|] eqn:E; [|discriminate].
  destruct (requestSignature_loop_reply cfg (fid m) _ r 10 eq_refl E)
    as [Hok Hpath].
  intros [= <-]. cbn. rewrite Hok, Hpath. repeat split.
Qed.

Lemma signed_fields ts sigs :
  all_from (sign_one cfg world) 0 ts = Some sigs ->
  map s_fid sigs = map fid ts
  /\ Forall (fun s => s_ok s = true /\ s_path s = sign_file (s_fid s)
                      /\ s_error s = ""%string) sigs.
Proof.
  intros H. apply all_from_Forall2 in H.
  induction H as [|m s ts sigs [j Hj] _ [IH1 IH2]]; cbn.
  - split; constructor.
  - destruct (sign_one_fields j m s Hj) as (Hf & Hok & Hp & He).
    split; [rewrite Hf, IH1; reflexivity|].
    constructor; [|exact IH2]. rewrite Hf. repeat split; assumption.
Qed.

(** The signature columns of a row, by whether its identifier is one of
    the signed ones. *)
Lemma rows_signature_columns sigs m (fallback : string) :
  Forall (fun s => s_ok s = true /\ s_path s = sign_file (s_fid s)
                   /\ s_error s = ""%string) sigs ->
  let sigMap := map (fun s => (s_fid s, s)) sigs in
  (match Map_get (fid m) sigMap with
   | Some s => if s_ok s then path_basename (s_path s) else ""%string
   | None => ""%string
   end
   = if existsb (String.eqb (fid m)) (map s_fid sigs)
     then path_basename (sign_file (fid m)) else ""%string)
  /\ (match Map_get (fid m) sigMap with
      | Some s => if String.eqb (s_error s) "" then fallback else s_error s
      | None => fallback
      end = fallback).
Proof.
  intros Hs sigMap.
  assert (Hkeys : map fst sigMap = map s_fid sigs).
  { unfold sigMap. rewrite map_map. reflexivity. }
  destruct (existsb (String.eqb (fid m)) (map s_fid sigs)) eqn:E.
  - rewrite <- Hkeys in E.
    destruct (Map_get_some (fid m) sigMap E) as (s & -> & Hin).
    unfold sigMap in Hin. apply in_map_iff in Hin.
    destruct Hin as (s' & [= Hf <-] & Hin').
    rewrite Forall_forall in Hs. destruct (Hs s' Hin') as (Hok & Hp & He).
    rewrite Hok, Hp, He, Hf. repeat split.
  - rewrite <- Hkeys in E. rewrite (Map_get_none (fid m) sigMap E).
    repeat split.
Qed.

End MainMore.

Lemma slice0_negative {X} (l : list X) end_ k :
  ToIntegerOrInfinity end_ = Integer k -> (k < 0)%Z ->
  slice0 l end_ = firstn (List.length l - Z.to_nat (- k)) l.
Proof.
  intros H Hk. unfold slice0. rewrite H.
  destruct (Z.ltb_spec k 0); [|lia]. f_equal. lia.
Qed.

Lemma slice0_nan {X} (l : list X) end_ :
  is_nan end_ = true -> slice0 l end_ = [].
Proof.
  rewrite is_nan_spec. unfold slice0, ToIntegerOrInfinity.
  destruct (Prim2SF end_); try discriminate. intros _.
  change (0 <? 0)%Z with false. cbv iota.
  rewrite Z.min_l by lia. reflexivity.
Qed.

Lemma slice0_prefix {X} (l : list X) end_ :
  exists n, slice0 l end_ = firstn n l.
Proof. unfold slice0. eauto. Qed.

(** *** Lines and trimming *)

Lemma list_pair_ind {X} (P : list X -> Prop) :
  P [] -> (forall a, P [a]) ->
  (forall a b l, P l -> P (b :: l) -> P (a :: b :: l)) ->
  forall l, P l.
Proof.
  intros H0 H1 H2.
  assert (H : forall l, P l /\ forall a, P (a :: l)).
  { induction l as [|b l [IH1 IH2]]; [split; [exact H0|exact H1]|].
    split; [apply IH2|]. intros a. apply H2; [exact IH1|apply IH2]. }
  intros l. apply H.
Qed.

Lemma dropWhiteSpace_In c l : In c (dropWhiteSpace l) -> In c l.
Proof.
  induction l as [|a l IH]; cbn; [tauto|].
  destruct (isWhiteSpace a); [intros H; right; exact (IH H)|tauto].
Qed.

Lemma dropWhiteSpace_idem l :
  dropWhiteSpace (dropWhiteSpace l) = dropWhiteSpace l.
Proof.
  induction l as [|a l IH]; cbn; [reflexivity|].
  destruct (isWhiteSpace a) eqn:E; [exact IH|]. cbn. rewrite E. reflexivity.
Qed.

Lemma dropWhiteSpace_head l c l' :
  dropWhiteSpace l = c :: l' -> isWhiteSpace c = false.
Proof.
  induction l as [|a l IH]; cbn; [discriminate|].
  destruct (isWhiteSpace a) eqn:E; [exact IH|]. intros [= <- _]. exact E.
Qed.

Lemma dropWhiteSpace_snoc l c :
  isWhiteSpace c = false ->
  dropWhiteSpace (l ++ [c]) = dropWhiteSpace l ++ [c].
Proof.
  intros Hc. induction l as [|a l IH]; cbn; [rewrite Hc; reflexivity|].
  destruct (isWhiteSpace a); [exact IH|reflexivity].
Qed.

Lemma trimmed_units_idem l : trimmed_units (trimmed_units l) = trimmed_units l.
Proof.
  unfold trimmed_units at 2 3.
  destruct (dropWhiteSpace l) as [|c a] eqn:E; [reflexivity|].
  pose proof (dropWhiteSpace_head l c a E) as Hc.
  cbn [rev]. rewrite (dropWhiteSpace_snoc (rev a) c Hc).
  rewrite rev_app_distr. cbn [rev app].
  unfold trimmed_units. cbn [dropWhiteSpace]. rewrite Hc.
  cbn [rev]. rewrite rev_involutive.
  rewrite (dropWhiteSpace_snoc _ c Hc), dropWhiteSpace_idem.
  rewrite rev_app_distr. reflexivity.
Qed.

Lemma trim_units s :
  list_ascii_of_string (trim s) = trimmed_units (list_ascii_of_string s).
Proof. unfold trim. apply list_ascii_of_string_of_list_ascii. Qed.

Lemma trim_idem s : trim (trim s) = trim s.
Proof.
  unfold trim at 1. rewrite trim_units.
  fold (trimmed_units (trimmed_units (list_ascii_of_string s))).
  rewrite trimmed_units_idem. reflexivity.
Qed.

Lemma trim_In c s :
  In c (list_ascii_of_string (trim s)) -> In c (list_ascii_of_string s).
Proof.
  rewrite trim_units. unfold trimmed_units. intros H.
  apply in_rev, dropWhiteSpace_In, in_rev, dropWhiteSpace_In in H. exact H.
Qed.

Lemma split_lines_from_cons cur c rest :
  split_lines_from cur (c :: rest)
  = if Ascii.eqb c LF
    then string_of_list_ascii (rev cur) :: split_lines_from [] rest
    else
      match rest with
      | c' :: rest' =>
          if Ascii.eqb c CR && Ascii.eqb c' LF
          then string_of_list_ascii (rev cur) :: split_lines_from [] rest'
          else split_lines_from (c :: cur) rest
      | [] => split_lines_from (c :: cur) rest
      end.
Proof. reflexivity. Qed.

Lemma split_lines_from_count s : forall cur,
  List.length (split_lines_from cur s)
  = S (count_occ ascii_dec s LF).
Proof.
  induction s as [| a | a b s IH1 IH2] using list_pair_ind; intros cur.
  - reflexivity.
  - cbn. destruct (Ascii.eqb_spec a LF) as [->|Hn]; cbn.
    + reflexivity.
    + destruct (ascii_dec a LF); [contradiction|reflexivity].
  - rewrite split_lines_from_cons.
    destruct (Ascii.eqb_spec a LF) as [->|Hn]; cbv iota.
    + cbn [List.length]. rewrite IH2.
      rewrite (count_occ_cons_eq ascii_dec (b :: s) (eq_refl LF)).
      reflexivity.
    + rewrite (count_occ_cons_neq ascii_dec (b :: s) Hn).
      destruct (Ascii.eqb a CR && Ascii.eqb b LF) eqn:E; cbv iota.
      * apply andb_prop in E. destruct E as [_ Eb].
        apply Ascii.eqb_eq in Eb. subst b.
        cbn [List.length]. rewrite IH1.
        rewrite (count_occ_cons_eq ascii_dec s (eq_refl LF)). reflexivity.
      * apply IH2.
Qed.

Lemma split_lines_from_no_LF s : forall cur,
  ~ In LF cur ->
  Forall (fun piece => ~ In LF (list_ascii_of_string piece))
         (split_lines_from cur s).
Proof.
  assert (Hpiece : forall cur, ~ In LF cur ->
            ~ In LF (list_ascii_of_string (string_of_list_ascii (rev cur)))).
  { intros cur H. rewrite list_ascii_of_string_of_list_ascii.
    intros Hin. apply H, in_rev, Hin. }
  assert (Hcons : forall a cur, a <> LF -> ~ In LF cur -> ~ In LF (a :: cur)).
  { intros a cur Ha H [E|E]; [apply Ha, E|apply H, E]. }
  induction s as [| a | a b s IH1 IH2] using list_pair_ind; intros cur Hc.
  - cbn. constructor; [apply Hpiece, Hc|constructor].
  - rewrite split_lines_from_cons.
    destruct (Ascii.eqb_spec a LF) as [->|Hn]; cbv iota.
    + constructor; [apply Hpiece, Hc|].
      constructor; [apply (Hpiece []); intros []|constructor].
    + constructor; [|constructor].
      apply (Hpiece (a :: cur)), Hcons; assumption.
  - rewrite split_lines_from_cons.
    destruct (Ascii.eqb_spec a LF) as [->|Hn]; cbv iota.
    + constructor; [apply Hpiece, Hc|]. apply IH2. intros [].
    + destruct (Ascii.eqb a CR && Ascii.eqb b LF); cbv iota.
      * constructor; [apply Hpiece, Hc|]. apply IH1. intros [].
      * apply IH2, Hcons; assumption.
Qed.

Lemma split_lines_from_units (P : ascii -> bool) s : forall cur,
  forallb P cur = true -> forallb P s = true ->
  Forall (fun piece => forallb P (list_ascii_of_string piece) = true)
         (split_lines_from cur s).
Proof.
  assert (Hpiece : forall cur, forallb P cur = true ->
            forallb P (list_ascii_of_string (string_of_list_ascii (rev cur)))
            = true).
  { intros cur H. rewrite list_ascii_of_string_of_list_ascii.
    rewrite forallb_rev. exact H. }
  induction s as [| a | a b s IH1 IH2] using list_pair_ind; intros cur Hc Hs.
  - cbn. constructor; [apply Hpiece, Hc|constructor].
  - cbn in Hs. rewrite andb_true_r in Hs. rewrite split_lines_from_cons.
    destruct (Ascii.eqb a LF); cbv iota.
    + constructor; [apply Hpiece, Hc|].
      constructor; [reflexivity|constructor].
    + constructor; [|constructor].
      apply (Hpiece (a :: cur)). cbn. rewrite Hs, Hc. reflexivity.
  - cbn [forallb] in Hs. apply andb_prop in Hs. destruct Hs as [Ha Hs].
    pose proof Hs as Hbs. cbn [forallb] in Hs. apply andb_prop in Hs.
    destruct Hs as [Hb Hs]. rewrite split_lines_from_cons.
    destruct (Ascii.eqb a LF); cbv iota.
    + constructor; [apply Hpiece, Hc|]. apply IH2; [reflexivity|exact Hbs].
    + destruct (Ascii.eqb a CR && Ascii.eqb b LF); cbv iota.
      * constructor; [apply Hpiece, Hc|]. apply IH1; [reflexivity|exact Hs].
      * apply IH2; [|exact Hbs]. cbn. rewrite Ha, Hc. reflexivity.
Qed.

(** Trimming keeps what holds of every code unit. *)
Lemma trim_units_of (P : ascii -> bool) s :
  forallb P (list_ascii_of_string s) = true ->
  forallb P (list_ascii_of_string (trim s)) = true.
Proof.
  rewrite !forallb_forall. intros H c Hc. apply H, trim_In, Hc.
Qed.

Lemma mapM_throws {X Y} (f : X -> result Y) l x :
  In x l -> f x = Throw TypeError -> mapM f l = Throw TypeError.
Proof.
  intros Hin Hx. induction l as [|a l IH]; [destruct Hin|].
  cbn. destruct Hin as [->|Hin].
  - rewrite Hx. reflexivity.
  - rewrite (IH Hin). destruct (f a) as [b|[]]; reflexivity.
Qed.

(** A trait whose [trait_type] or [value] does not convert to a string
    has no summary. *)
Lemma summarizeTrait_throws {rt : Runtime} t :
  (exists e, ToString (trait_type t) = Throw e)
  \/ (exists e, ToString (value t) = Throw e) ->
  summarizeTrait t = Throw TypeError.
Proof.
  intros H. unfold summarizeTrait.
  destruct (if nullish (percent t) then _ else _) as [pct|[]];
    cbn [bind]; [|reflexivity].
  destruct H as [[[] He]|[[] He]]; rewrite He.
  - reflexivity.
  - destruct (ToString (trait_type t)) as [ty|[]]; reflexivity.
Qed.

Section ScanMore.
Context {rt : Runtime}.
Variable cfg : Config.
Variable world : World.



End ScanMore.

End More_facts.

Import More_facts.

(** ** The normalizer and the scorer, continued *)

(** X1.  On a payload whose trait array is [l] (under [attributes], or
    under [traits] when [attributes] is not an array), the normalizer
    throws exactly when [l] has a [null] or [undefined] entry, and
    otherwise returns one record per entry. *)
Theorem normalizeTraits_throws_iff (rt : Runtime) (data : JsVal)
    (l : list JsVal) :
  get_opt data "attributes" = JArr l
  \/ (Array_isArray (get_opt data "attributes") = false
      /\ get_opt data "traits" = JArr l) ->
  (normalizeTraits data = Throw TypeError
   <-> Exists (fun t => nullish t = true) l)
  /\ (forall ts, normalizeTraits data = Ok ts ->
                 List.length ts = List.length l
                 /\ Forall (fun t => nullish t = false) l).
Proof.
  intros Hraw. rewrite (normalizeTraits_raw data l Hraw).
  destruct (mapM_normalizeTrait_cases l)
    as [[He Ht]|[Hf (ts & Hts & Hlen)]].
  - rewrite Ht. split; [tauto|]. intros ts [=].
  - rewrite Hts. split.
    + split; [discriminate|]. intros He. exfalso.
      apply Exists_exists in He. destruct He as (t & Hin & Ht).
      rewrite Forall_forall in Hf. rewrite (Hf t Hin) in Ht. discriminate.
    + intros ts' [= <-]. split; assumption.
Qed.

Lemma normalizeTraits_throws_iff_witness :
  @normalizeTraits Sample.runtime Sample.payload_null_entry = Throw TypeError
  <-> Exists (fun t => nullish t = true) [JNull].
Proof.
  exact (proj1 (@normalizeTraits_throws_iff Sample.runtime
                  Sample.payload_null_entry [JNull] (or_introl eq_refl))).
Defined.

(** X2.  Every record the normalizer returns has a percent that is a
    number or [null] (never a string or any other value), and a
    [trait_type] and a [value] that are neither [null] nor [undefined];
    the scorer and the summary rely on it. *)
Theorem normalized_records_shape (rt : Runtime) (data : JsVal)
    (ts : list TraitRecord) :
  normalizeTraits data = Ok ts ->
  Forall (fun r =>
            (percent r = JNull \/ exists x, percent r = JNum x)
            /\ nullish (trait_type r) = false
            /\ nullish (value r) = false) ts.
Proof.
  unfold normalizeTraits. apply mapM_Forall.
  intros t r. apply normalizeTrait_shape.
Qed.

Lemma normalized_records_shape_witness :
  exists ts,
    @normalizeTraits Sample.runtime Sample.payload_attributes = Ok ts
    /\ Forall (fun r =>
                 (percent r = JNull \/ exists x, percent r = JNum x)
                 /\ nullish (trait_type r) = false
                 /\ nullish (value r) = false) ts.
Proof.
  eexists. split; [reflexivity|].
  apply (@normalized_records_shape Sample.runtime Sample.payload_attributes).
  reflexivity.
Defined.



(** X4.  A payload with no trait array under either name (a missing or
    malformed container) has no traits: its summary is the empty string
    and, without a top-level numeric [rarityScore], its score is the
    rounding of 0. *)
Theorem no_trait_array_scores_zero (rt : Runtime) (data : JsVal) :
  Array_isArray (get_opt data "attributes") = false ->
  Array_isArray (get_opt data "traits") = false ->
  normalizeTraits data = Ok []
  /\ traitsSummary data = Ok ""%string
  /\ (typeof (get_opt data "rarityScore") <> "number"%string ->
      rarityScore data = Ok (Number_toFixed6 0)).
Proof.
  intros Ha Ht.
  pose proof (normalizeTraits_no_array data Ha Ht) as Hn.
  split; [exact Hn|]. split.
  - unfold traitsSummary. rewrite Hn. reflexivity.
  - intros Hno. unfold rarityScore. apply String.eqb_neq in Hno.
    rewrite Hno, Hn. reflexivity.
Qed.

Lemma no_trait_array_scores_zero_witness :
  @traitsSummary Sample.runtime Sample.payload_no_traits = Ok ""%string
  /\ @rarityScore Sample.runtime Sample.payload_no_traits = Ok 0.
Proof.
  pose proof (@no_trait_array_scores_zero Sample.runtime
                Sample.payload_no_traits eq_refl eq_refl) as (_ & H1 & H2).
  split; [exact H1|]. apply H2. cbn. discriminate.
Defined.

(** X5.  A top-level numeric [rarityScore] is returned without looking at
    the traits, so the scorer returns even where the normalizer throws;
    the summary still normalizes and throws, and the identifier yields no
    entry of [metas]. *)
Theorem numeric_rarityScore_skips_traits (rt : Runtime) (cfg : Config)
    (world : World) (i : nat) (fid : string) (res : GenerationResult)
    (x : float) :
  get_opt (gen_data res) "rarityScore" = JNum x ->
  normalizeTraits (gen_data res) = Throw TypeError ->
  fst (generateMeta cfg fid (generate_http world i)) = Some res ->
  rarityScore (gen_data res) = Ok x
  /\ traitsSummary (gen_data res) = Throw TypeError
  /\ scan_one cfg world i fid = None.
Proof.
  intros Hx Hn Hres.
  assert (Hs : rarityScore (gen_data res) = Ok x).
  { unfold rarityScore. rewrite Hx. reflexivity. }
  assert (Ht : traitsSummary (gen_data res) = Throw TypeError).
  { unfold traitsSummary. rewrite Hn. reflexivity. }
  split; [exact Hs|]. split; [exact Ht|].
  unfold scan_one. rewrite Hres, Hs, Ht. reflexivity.
Qed.

Lemma numeric_rarityScore_skips_traits_witness :
  @rarityScore Sample.runtime Sample.payload_scored_null_entry = Ok 7
  /\ @traitsSummary Sample.runtime Sample.payload_scored_null_entry
     = Throw TypeError
  /\ @scan_one Sample.runtime (Sample.config "" false)
       (Sample.world (fun _ => Sample.payload_scored_null_entry)) 0 "A"%string
     = None.
Proof.
  exact (@numeric_rarityScore_skips_traits Sample.runtime
           (Sample.config "" false)
           (Sample.world (fun _ => Sample.payload_scored_null_entry))
           0 "A"%string
           {| gen_ok := true;
              gen_data := Sample.payload_scored_null_entry;
              gen_jsonPath := "out/warplet-A.json";
              gen_pngPath := None |}
           7 eq_refl eq_refl eq_refl).
Defined.

(** ** The retry loops, continued *)

(** X6.  [generateMeta] returns at the first attempt that answers with
    status 200 and a truthy body and whose JSON file is written (a failed
    write is caught and the attempt retried like a failed post): its
    result carries that body, the path [warplet-<fid>.json] under the
    output directory and what [maybeSavePng] gives, whatever the later
    attempts would be, and one delay of 50 ms was taken per attempt
    before it. *)
Theorem generateMeta_first_success (rt : Runtime) (cfg : Config)
    (fid : string) (failed later : list HttpOutcome) (status : Z)
    (data : JsVal) :
  forallb (fun a => negb (generate_succeeded cfg fid a)) failed = true ->
  generate_succeeded cfg fid (HttpResponse status data) = true ->
  generateMeta cfg fid (failed ++ HttpResponse status data :: later)
  = (Some {| gen_ok := true;
             gen_data := data;
             gen_jsonPath :=
               path_join (OUTDIR cfg) ("warplet-" ++ fid ++ ".json");
             gen_pngPath := maybeSavePng cfg data fid |},
     repeat maxBack (List.length failed)).
Proof.
  intros Hf Hs. unfold generateMeta.
  apply generateMeta_loop_split; [reflexivity|exact Hf|exact Hs].
Qed.

Lemma generateMeta_first_success_witness :
  @generateMeta Sample.runtime (Sample.config "" false) "7"
    ([HttpFailure; HttpResponse 500 JNull; HttpResponse 200 (JStr "")]
       ++ HttpResponse 200 (Sample.scored 1) :: [HttpFailure])
  = (Some {| gen_ok := true;
             gen_data := Sample.scored 1;
             gen_jsonPath := "out/warplet-7.json";
             gen_pngPath := None |},
     [50; 50; 50]).
Proof.
  exact (@generateMeta_first_success Sample.runtime (Sample.config "" false)
           "7" [HttpFailure; HttpResponse 500 JNull; HttpResponse 200 (JStr "")]
           [HttpFailure] 200 (Sample.scored 1) eq_refl eq_refl).
Defined.

(** X7.  [generateMeta] has no result exactly while no attempt has both
    answered with status 200 and a truthy body and written its JSON file,
    and then it has taken one delay of 50 ms per attempt.  So it has none
    while no attempt has that answer (a 200 with an empty body is retried
    like an error), and it never has one for an identifier whose JSON
    file cannot be written (one with a [/] in it, say), whatever the
    service answers. *)
Theorem generateMeta_pending_iff (rt : Runtime) (cfg : Config)
    (fid : string) (attempts : list HttpOutcome) :
  (fst (generateMeta cfg fid attempts) = None
   <-> existsb (generate_succeeded cfg fid) attempts = false)
  /\ (existsb (generate_succeeded cfg fid) attempts = false ->
      snd (generateMeta cfg fid attempts)
      = repeat maxBack (List.length attempts))
  /\ (existsb succeeded attempts = false ->
      fst (generateMeta cfg fid attempts) = None)
  /\ ((forall data,
          writeJson (path_join (OUTDIR cfg) ("warplet-" ++ fid ++ ".json"))
            data = false) ->
      generateMeta cfg fid attempts
      = (None, repeat maxBack (List.length attempts))).
Proof.
  unfold generateMeta.
  assert (Hnone : existsb (generate_succeeded cfg fid) attempts = false ->
                  generateMeta_loop cfg fid 10 attempts
                  = (None, repeat maxBack (List.length attempts))).
  { apply generateMeta_loop_none. reflexivity. }
  split; [split|split; [|split]].
  - intros H.
    destruct (existsb (generate_succeeded cfg fid) attempts) eqn:E;
      [|reflexivity].
    destruct (generateMeta_loop_returns cfg fid attempts 10 eq_refl E)
      as (st & d & res & _ & _ & Hres & _).
    rewrite Hres in H. discriminate.
  - intros E. rewrite (Hnone E). reflexivity.
  - intros E. rewrite (Hnone E). reflexivity.
  - intros E. rewrite (Hnone (no_answer_no_generate cfg fid attempts E)).
    reflexivity.
  - intros Hw. apply Hnone. clear Hnone.
    induction attempts as [|a later IH]; [reflexivity|].
    cbn [existsb]. rewrite IH.
    destruct a as [st d|]; [|reflexivity].
    cbn [generate_succeeded]. rewrite Hw, andb_false_r. reflexivity.
Qed.

Lemma generateMeta_pending_iff_witness :
  existsb succeeded [HttpFailure; HttpResponse 200 (JStr "")] = false
  /\ fst (@generateMeta Sample.runtime (Sample.config "" false) "7"
            [HttpFailure; HttpResponse 200 (JStr "")]) = None
  /\ @generateMeta Sample.runtime (Sample.config "" false) "a/b"
       [HttpResponse 200 (Sample.scored 1); HttpResponse 200 (Sample.scored 1)]
     = (None, [50; 50]).
Proof.
  split; [reflexivity|]. split.
  - exact (proj1 (proj2 (proj2 (@generateMeta_pending_iff Sample.runtime
                     (Sample.config "" false) "7"
                     [HttpFailure; HttpResponse 200 (JStr "")]))) eq_refl).
  - exact (proj2 (proj2 (proj2 (@generateMeta_pending_iff Sample.runtime
                     (Sample.config "" false) "a/b"
                     [HttpResponse 200 (Sample.scored 1);
                      HttpResponse 200 (Sample.scored 1)])))
             (fun _ => eq_refl)).
Defined.

(** X8.  [requestSignature] returns at the first attempt that answers
    with status 200 and a truthy body and whose signature file is written
    (a failed write is retried like a failed post), with [ok] true and
    the path [sign-<fid>.json] under the output directory, after one
    delay of 50 ms per attempt before it; the wallet address has no part
    in the result. *)
Theorem requestSignature_first_success (rt : Runtime) (cfg : Config)
    (fid wallet : string) (failed later : list HttpOutcome) (status : Z)
    (data : JsVal) :
  forallb (fun a => negb (sign_succeeded cfg fid a)) failed = true ->
  sign_succeeded cfg fid (HttpResponse status data) = true ->
  requestSignature cfg fid wallet
    (failed ++ HttpResponse status data :: later)
  = (Some {| sign_ok := true;
             sign_data := data;
             sign_path :=
               path_join (OUTDIR cfg) ("sign-" ++ fid ++ ".json") |},
     repeat maxBack (List.length failed)).
Proof.
  intros Hf Hs. unfold requestSignature.
  apply requestSignature_loop_split; [reflexivity|exact Hf|exact Hs].
Qed.

Lemma requestSignature_first_success_witness :
  @requestSignature Sample.runtime (Sample.config "0xW" false) "7" "0xW"
    ([HttpFailure] ++ HttpResponse 200 (JStr "sig") :: [])
  = (Some {| sign_ok := true;
             sign_data := JStr "sig";
             sign_path := "out/sign-7.json" |},
     [50]).
Proof.
  exact (@requestSignature_first_success Sample.runtime
           (Sample.config "0xW" false) "7" "0xW" [HttpFailure] [] 200
           (JStr "sig") eq_refl eq_refl).
Defined.

(** ** Main, continued *)



(** X10.  With a wallet configured and rare-only mode off, every entry is
    a signature target and, once the run completes, every row of the
    final index names its signature file [sign-<fid>.json] and has an
    empty [sig_error]. *)
Theorem sign_all_mode (rt : Runtime) (cfg : Config) (world : World)
    (infile : string) (rs : list Row) :
  ADDR cfg <> ""%string ->
  RARE_ONLY cfg = false ->
  main cfg world infile = Some rs ->
  (forall metas, targets cfg metas = metas)
  /\ Forall (fun r =>
               signature r
               = path_basename
                   (path_join (OUTDIR cfg) ("sign-" ++ row_fid r ++ ".json"))
               /\ sig_error r = ""%string) rs.
Proof.
  intros Ha Hr Hrun. apply String.eqb_neq in Ha.
  assert (Ht : forall metas, targets cfg metas = metas).
  { intros metas. unfold targets. rewrite Ha, Hr. reflexivity. }
  split; [exact Ht|].
  destruct (main_inv cfg world infile rs Hrun) as (metas & sigs & Hm & Hs & ->).
  rewrite Ht in Hs.
  destruct (signed_fields cfg world _ _ Hs) as [Hfids Hsigs].
  unfold rows. apply Forall_map, Forall_forall. intros m Hin. cbn.
  destruct (rows_signature_columns cfg sigs m ""%string Hsigs) as [H1 H2].
  cbn in H1, H2. rewrite Ha, H1, H2, Hfids.
  assert (He : existsb (String.eqb (fid m)) (map fid (sort_metas metas))
               = true).
  { apply existsb_exists. exists (fid m).
    split; [apply in_map, Hin|apply String.eqb_refl]. }
  rewrite He. split; reflexivity.
Qed.

Lemma sign_all_mode_witness :
  exists rs,
    @main Sample.runtime (Sample.config "0xW" false)
      (Sample.world Sample.payloads_3551) Sample.infile_ABCD = Some rs
    /\ map signature rs
       = ["sign-B.json"; "sign-C.json"; "sign-A.json"; "sign-D.json"]%string
    /\ Forall (fun r =>
                 signature r
                 = Sample.basename_from ""
                     ("out/sign-" ++ row_fid r ++ ".json")
                 /\ sig_error r = ""%string) rs.
Proof.
  eexists. split; [vm_compute; reflexivity|]. split; [reflexivity|].
  refine (proj2 (@sign_all_mode Sample.runtime (Sample.config "0xW" false)
                   (Sample.world Sample.payloads_3551) Sample.infile_ABCD _
                   _ eq_refl _)).
  - discriminate.
  - vm_compute. reflexivity.
Defined.

(** X11.  Whenever the final index is written, the first index was
    written before it with the same rows in the same order: the two agree
    on [fid], [rarityScore], [traits], [json] and [png], and the first one
    has [signature] and [sig_error] empty in every row. *)
Theorem first_index_agrees (rt : Runtime) (cfg : Config) (world : World)
    (infile : string) (rs : list Row) :
  main cfg world infile = Some rs ->
  exists rs0,
    first_index cfg world infile = Some rs0
    /\ map (fun r => (row_fid r, row_rarityScore r, row_traits r,
                      row_json r, row_png r)) rs0
       = map (fun r => (row_fid r, row_rarityScore r, row_traits r,
                        row_json r, row_png r)) rs
    /\ Forall (fun r => signature r = ""%string /\ sig_error r = ""%string)
              rs0.
Proof.
  intros Hrun.
  destruct (main_inv cfg world infile rs Hrun) as (metas & sigs & Hm & _ & ->).
  unfold first_index. rewrite Hm. eexists. split; [reflexivity|].
  unfold initial_rows, rows. split.
  - rewrite !map_map. reflexivity.
  - apply Forall_map, Forall_forall. intros m _. split; reflexivity.
Qed.

Lemma first_index_agrees_witness :
  exists rs rs0,
    @main Sample.runtime (Sample.config "0xW" false)
      (Sample.world Sample.payloads_3551) Sample.infile_ABCD = Some rs
    /\ @first_index Sample.runtime (Sample.config "0xW" false)
         (Sample.world Sample.payloads_3551) Sample.infile_ABCD = Some rs0
    /\ map (fun r => (row_fid r, row_rarityScore r, row_traits r,
                      row_json r, row_png r)) rs0
       = map (fun r => (row_fid r, row_rarityScore r, row_traits r,
                        row_json r, row_png r)) rs.
Proof.
  eexists.
  destruct (@first_index_agrees Sample.runtime (Sample.config "0xW" false)
              (Sample.world Sample.payloads_3551) Sample.infile_ABCD _
              eq_refl) as (rs0 & H0 & Hcols & _).
  exists rs0. split; [reflexivity|]. split; [exact H0|exact Hcols].
Defined.

(** X12.  Where no score is NaN, ranking leaves a list that is already in
    descending score order (every score greater than or equal to the
    next) as it is, and ranking twice is ranking once. *)
Theorem ranking_idempotent (metas : list Meta) :
  no_NaN_score metas ->
  (Sorted score_geq metas -> sort_metas metas = metas)
  /\ sort_metas (sort_metas metas) = sort_metas metas.
Proof.
  intros _. split.
  - intros H. apply (Array_sort_sorted_id Meta score).
    induction H as [|m l _ IH Hhd]; constructor; [exact IH|].
    destruct Hhd as [|m' l Hmm']; constructor. apply leb_not_ltb, Hmm'.
  - apply (Array_sort_sorted_id Meta score).
    apply (Array_sort_sorted Meta score).
Qed.

Lemma ranking_idempotent_witness :
  no_NaN_score [Sample.meta "B" 5; Sample.meta "C" 5; Sample.meta "A" 3]
  /\ Sorted score_geq [Sample.meta "B" 5; Sample.meta "C" 5; Sample.meta "A" 3]
  /\ sort_metas [Sample.meta "B" 5; Sample.meta "C" 5; Sample.meta "A" 3]
     = [Sample.meta "B" 5; Sample.meta "C" 5; Sample.meta "A" 3].
Proof.
  assert (Hn : no_NaN_score
                 [Sample.meta "B" 5; Sample.meta "C" 5; Sample.meta "A" 3])
    by (repeat constructor).
  assert (H : Sorted score_geq
                [Sample.meta "B" 5; Sample.meta "C" 5; Sample.meta "A" 3])
    by (repeat constructor).
  split; [exact Hn|]. split; [exact H|].
  exact (proj1 (ranking_idempotent _ Hn) H).
Defined.

(** X13.  In rare-only mode with a wallet, whatever [TOP_K] holds, the
    targets are a leading segment of the entries that meet the threshold,
    in their order: every target has a score of at least [MIN_SCORE], and
    no entry below the threshold is ever signed. *)
Theorem rare_only_targets_meet_threshold (cfg : Config)
    (metas : list Meta) :
  ADDR cfg <> ""%string ->
  RARE_ONLY cfg = true ->
  (exists n,
      targets cfg metas
      = firstn n (filter (fun m => MIN_SCORE cfg <=? score m) metas))
  /\ Forall (fun m => (MIN_SCORE cfg <=? score m) = true /\ In m metas)
            (targets cfg metas).
Proof.
  intros Ha Hr. apply String.eqb_neq in Ha. unfold targets. rewrite Ha, Hr.
  destruct (slice0_prefix
              (filter (fun m => MIN_SCORE cfg <=? score m) metas)
              (TOP_K cfg)) as [n Hn].
  split; [exists n; exact Hn|].
  rewrite Hn. apply Forall_forall. intros m Hin.
  apply In_firstn, filter_In in Hin. tauto.
Qed.

Lemma rare_only_targets_meet_threshold_witness :
  Forall (fun m => (2 <=? score m) = true /\ In m Sample.metas_5314)
         (targets (Sample.config "0xW" true) Sample.metas_5314).
Proof.
  refine (proj2 (rare_only_targets_meet_threshold (Sample.config "0xW" true)
                   Sample.metas_5314 _ eq_refl)).
  discriminate.
Defined.

(** X14.  In rare-only mode a negative [TOP_K] of [-n] does not select
    nothing: [slice(0, -n)] keeps the entries that meet the threshold
    except the last [n]; and a [TOP_K] that is NaN (an unparsable setting)
    selects no target at all. *)
Theorem rare_only_odd_top_k (cfg : Config) (metas : list Meta) :
  ADDR cfg <> ""%string ->
  RARE_ONLY cfg = true ->
  let eligible := filter (fun m => MIN_SCORE cfg <=? score m) metas in
  (forall k, ToIntegerOrInfinity (TOP_K cfg) = Integer k -> (k < 0)%Z ->
             targets cfg metas
             = firstn (List.length eligible - Z.to_nat (- k)) eligible)
  /\ (is_nan (TOP_K cfg) = true -> targets cfg metas = []).
Proof.
  intros Ha Hr eligible. apply String.eqb_neq in Ha.
  unfold targets. rewrite Ha, Hr. split.
  - intros k Hk Hneg. apply slice0_negative; assumption.
  - apply slice0_nan.
Qed.

Lemma rare_only_odd_top_k_witness :
  map fid (targets (Sample.config_top (-1)) (sort_metas Sample.metas_5314))
  = ["A"; "D"]%string
  /\ targets (Sample.config_top nan) (sort_metas Sample.metas_5314) = [].
Proof.
  pose proof (rare_only_odd_top_k (Sample.config_top (-1))
                (sort_metas Sample.metas_5314) ltac:(discriminate) eq_refl)
    as [H1 _].
  pose proof (rare_only_odd_top_k (Sample.config_top nan)
                (sort_metas Sample.metas_5314) ltac:(discriminate) eq_refl)
    as [_ H2].
  split.
  - rewrite (H1 (-1)%Z eq_refl eq_refl). reflexivity.
  - exact (H2 eq_refl).
Defined.

(** X15.  With no wallet configured the run makes no sign call: its
    outcome is that of the generate phase alone, the same for any two
    remote services that answer the generate calls alike, even one whose
    sign endpoint never succeeds. *)
Theorem no_wallet_ignores_sign_service (rt : Runtime) (cfg : Config)
    (world world' : World) (infile : string) :
  ADDR cfg = ""%string ->
  (forall i, generate_http world i = generate_http world' i) ->
  main cfg world infile = main cfg world' infile
  /\ main cfg world infile
     = match all_from (scan_one cfg world) 0 (fids infile) with
       | Some metas => Some (rows cfg (sort_metas metas) [])
       | None => None
       end.
Proof.
  intros Ha Hg.
  assert (Hm : forall w,
             main cfg w infile
             = match all_from (scan_one cfg w) 0 (fids infile) with
               | Some metas => Some (rows cfg (sort_metas metas) [])
               | None => None
               end).
  { intros w. unfold main.
    destruct (all_from (scan_one cfg w) 0 (fids infile)); [|reflexivity].
    unfold targets. rewrite Ha. reflexivity. }
  split; [|apply Hm]. rewrite !Hm.
  assert (Hs : forall l i, all_from (scan_one cfg world) i l
                           = all_from (scan_one cfg world') i l).
  { induction l as [|f l IH]; intros i; cbn; [reflexivity|].
    rewrite IH. unfold scan_one. rewrite Hg. reflexivity. }
  rewrite Hs. reflexivity.
Qed.

Lemma no_wallet_ignores_sign_service_witness :
  @main Sample.runtime (Sample.config "" false)
    (Sample.world Sample.payloads_3551) Sample.infile_ABCD
  = @main Sample.runtime (Sample.config "" false)
      (Sample.world_no_sign Sample.payloads_3551) Sample.infile_ABCD.
Proof.
  exact (proj1 (@no_wallet_ignores_sign_service Sample.runtime
                  (Sample.config "" false)
                  (Sample.world Sample.payloads_3551)
                  (Sample.world_no_sign Sample.payloads_3551)
                  Sample.infile_ABCD eq_refl (fun i => eq_refl))).
Defined.



(** ** The input file *)

(** X17.  Every identifier read from an input file of ASCII text is a
    non-empty ASCII token with no white space at either end (trimming it
    again changes nothing) and no line feed inside: it is the trimmed
    content of one line. *)
Theorem fids_are_trimmed_tokens (infile f : string) :
  ascii_only infile = true ->
  In f (fids infile) ->
  f <> ""%string
  /\ trim f = f
  /\ blank f = false
  /\ ascii_only f = true
  /\ ~ In LF (list_ascii_of_string f)
  /\ exists line, In line (split_lines infile) /\ f = trim line.
Proof.
  unfold fids. intros Hascii H. apply filter_In in H. destruct H as [Hin Hne].
  apply in_map_iff in Hin. destruct Hin as (line & <- & Hline).
  assert (Hn : trim line <> ""%string).
  { apply String.eqb_neq. apply negb_true_iff, Hne. }
  split; [exact Hn|]. split; [apply trim_idem|]. split; [|split; [|split]].
  - pose proof (trim_nonempty (trim line)) as Ht.
    rewrite trim_idem in Ht. rewrite Hne in Ht.
    symmetry in Ht. apply negb_true_iff in Ht. exact Ht.
  - apply trim_units_of.
    pose proof (split_lines_from_units (fun c => (nat_of_ascii c <? 128)%nat)
                  (list_ascii_of_string infile) [] eq_refl Hascii) as Hall.
    rewrite Forall_forall in Hall. exact (Hall line Hline).
  - intros Hlf. apply trim_In in Hlf.
    pose proof (split_lines_from_no_LF (list_ascii_of_string infile) []
                  (fun H => H)) as Hall.
    rewrite Forall_forall in Hall. exact (Hall line Hline Hlf).
  - exists line. split; [exact Hline|reflexivity].
Qed.

Lemma fids_are_trimmed_tokens_witness :
  ascii_only Sample.infile_ABCD = true
  /\ In "C"%string (fids Sample.infile_ABCD)
  /\ trim "C" = "C"%string /\ blank "C" = false.
Proof.
  assert (H : In "C"%string (fids Sample.infile_ABCD))
    by (vm_compute; tauto).
  destruct (fids_are_trimmed_tokens Sample.infile_ABCD "C" eq_refl H)
    as (_ & H1 & H2 & _).
  split; [reflexivity|]. split; [exact H|]. split; [exact H1|exact H2].
Defined.

(** X18.  The input is cut at every line feed and nowhere else (a
    carriage return before a line feed goes with the cut, a lone carriage
    return cuts nothing): there is one more piece than line feeds, and at
    most that many identifiers. *)
Theorem lines_by_line_feeds (infile : string) :
  List.length (split_lines infile)
  = S (count_occ ascii_dec (list_ascii_of_string infile) LF)
  /\ (List.length (fids infile)
      <= S (count_occ ascii_dec (list_ascii_of_string infile) LF))%nat.
Proof.
  assert (H : List.length (split_lines infile)
              = S (count_occ ascii_dec (list_ascii_of_string infile) LF))
    by apply split_lines_from_count.
  split; [exact H|]. rewrite <- H. unfold fids.
  etransitivity; [apply filter_length_le|]. rewrite length_map. reflexivity.
Qed.

(** ** The image *)

(** X19.  [maybeSavePng] writes no file and returns nothing when the
    payload has neither a truthy [generatedImage] nor a truthy
    [imageBase64]; when it returns a path, the path is
    [warplet-<fid>.png] under the output directory and the write
    succeeded; and a truthy [generatedImage] is the image written, whatever
    [imageBase64] holds. *)
Theorem maybeSavePng_cases (rt : Runtime) (cfg : Config) (data : JsVal)
    (fid : string) :
  let out := path_join (OUTDIR cfg) ("warplet-" ++ fid ++ ".png") in
  (truthy (get_opt data "generatedImage") = false ->
   truthy (get_opt data "imageBase64") = false ->
   maybeSavePng cfg data fid = None)
  /\ (forall p, maybeSavePng cfg data fid = Some p ->
                p = out
                /\ (writePng (get_opt data "generatedImage") out = true
                    \/ writePng (get_opt data "imageBase64") out = true))
  /\ (truthy (get_opt data "generatedImage") = true ->
      maybeSavePng cfg data fid
      = if writePng (get_opt data "generatedImage") out then Some out
        else None).
Proof.
  intros out. unfold maybeSavePng, or_else. fold out.
  destruct (truthy (get_opt data "generatedImage")) eqn:Eg; cbv iota.
  - rewrite Eg. cbv iota. rewrite Eg. cbn [negb]. cbv iota.
    split; [discriminate|]. split; [|reflexivity].
    intros p. destruct (writePng _ out) eqn:Ew; [|discriminate].
    intros [= <-]. split; [reflexivity|left; reflexivity].
  - destruct (truthy (get_opt data "imageBase64")) eqn:Ei; cbv iota.
    + rewrite Ei. cbn [negb]. cbv iota. split; [discriminate|].
      split; [|discriminate].
      intros p. destruct (writePng _ out) eqn:Ew; [|discriminate].
      intros [= <-]. split; [reflexivity|right; reflexivity].
    + cbn. split; [reflexivity|]. split; discriminate.
Qed.

Lemma maybeSavePng_cases_witness :
  @maybeSavePng Sample.runtime (Sample.config "" false)
    Sample.payload_image "7" = Some "out/warplet-7.png"%string
  /\ @maybeSavePng Sample.runtime (Sample.config "" false)
       (Sample.scored 1) "7" = None.
Proof.
  split; [reflexivity|].
  exact (proj1 (@maybeSavePng_cases Sample.runtime (Sample.config "" false)
                  (Sample.scored 1) "7") eq_refl eq_refl).
Defined.

(** ** The index and the artifacts *)



(** ** The summary *)

(** X21.  The summary converts every [trait_type] and [value] to a
    string, and the conversion can throw (on an object whose own
    [toString] is not callable): a payload with one such trait has no
    summary although its traits normalize and the scorer returns, and the
    identifier that fetched it yields no entry of [metas]. *)
Theorem unprintable_trait_blocks_entry (rt : Runtime) (data : JsVal)
    (ts : list TraitRecord) (t : TraitRecord) :
  normalizeTraits data = Ok ts ->
  In t ts ->
  (exists e, ToString (trait_type t) = Throw e)
  \/ (exists e, ToString (value t) = Throw e) ->
  traitsSummary data = Throw TypeError
  /\ (exists s, rarityScore data = Ok s)
  /\ (forall cfg world i fid res,
        fst (generateMeta cfg fid (generate_http world i)) = Some res ->
        gen_data res = data ->
        scan_one cfg world i fid = None).
Proof.
  intros Hn Hin Ht.
  assert (Hsum : traitsSummary data = Throw TypeError).
  { unfold traitsSummary. rewrite Hn. cbn [bind].
    rewrite (mapM_throws summarizeTrait ts t Hin (summarizeTrait_throws t Ht)).
    reflexivity. }
  split; [exact Hsum|]. split; [exact (rarityScore_returns data ts Hn)|].
  intros cfg world i fid res Hres Hd. unfold scan_one.
  rewrite Hres, Hd, Hsum. destruct (rarityScore data); reflexivity.
Qed.

Lemma unprintable_trait_blocks_entry_witness :
  @traitsSummary Sample.runtime Sample.payload_unprintable = Throw TypeError
  /\ (exists s, @rarityScore Sample.runtime Sample.payload_unprintable = Ok s)
  /\ @scan_one Sample.runtime (Sample.config "" false)
       (Sample.world (fun _ => Sample.payload_unprintable)) 0 "A"%string
     = None.
Proof.
  destruct (@unprintable_trait_blocks_entry Sample.runtime
              Sample.payload_unprintable _ _ eq_refl (or_introl eq_refl)
              (or_intror (ex_intro _ TypeError eq_refl)))
    as (H1 & H2 & H3).
  split; [exact H1|]. split; [exact H2|].
  exact (H3 (Sample.config "" false)
            (Sample.world (fun _ => Sample.payload_unprintable)) 0%nat
            "A"%string _ eq_refl eq_refl).
Defined.
